(** * heredity.py: exact inference over a family pedigree

    A shallow embedding of [src/heredity.py] and the properties of its
    inference core: [inherit_prob], [joint_probability], the enumeration of
    [main], [update] and [normalize].

    Python sets are [gset string]; dictionaries that are iterated keep their
    insertion order as association lists; the arithmetic is written once over
    an interface [Arith] and run at two instances: exact rationals ([Qc]) and
    IEEE binary64 (the kernel's primitive floats, which is what a Python
    [float] is). *)

From Stdlib Require Import ZArith QArith Qround Qcanon Floats Uint63 Lia List Bool.
From stdpp Require Import base gmap sets list strings.

Set Warnings "-inexact-float,-clear-no-such-hyp".
Set Default Proof Using "Type*".

(** ** Numbers *)

(** The operations the program applies to numbers.  [lit] reads a literal of
    the source text ([0], [1], [0.01], ...); [is_zero x] is [x == 0]; [quot]
    is [/] on a non-zero divisor; [exact_value] is the mathematical value of
    a number, when it has one. *)
Class Arith (T : Type) := {
  lit : Q -> T;
  add : T -> T -> T;
  sub : T -> T -> T;
  mul : T -> T -> T;
  quot : T -> T -> T;
  is_zero : T -> bool;
  exact_value : T -> option Q
}.

Declare Scope num_scope.
Delimit Scope num_scope with num.
Infix "+" := add : num_scope.
Infix "-" := sub : num_scope.
Infix "*" := mul : num_scope.

(** [x / y] raises [ZeroDivisionError] when [y == 0], for integers and for
    floats alike; [None] stands for the exception. *)
Definition div {T} `{Arith T} (x y : T) : option T :=
  if is_zero y then None else Some (quot x y).

Module Exact.
(** Exact rational arithmetic. *)
#[global] Instance arith : Arith Qc := {|
  lit := Q2Qc;
  add := Qcplus;
  sub := Qcminus;
  mul := Qcmult;
  quot := Qcdiv;
  is_zero := fun x => Qeq_bool x 0;
  exact_value := fun x => Some (this x)
|}.
End Exact.

Module Binary64.
(** Python floats: IEEE 754 binary64, round to nearest even. *)

Definition of_Z (z : Z) : float :=
  if (z <? 0)%Z then PrimFloat.opp (PrimFloat.of_uint63 (Uint63.of_Z (- z)))
  else PrimFloat.of_uint63 (Uint63.of_Z z).

(** A decimal literal [n / 10^k] is read as the nearest float.  Numerator
    and denominator are below [2^53] for every literal of the program, so
    both convert exactly and the correctly rounded quotient is that nearest
    float. *)
Definition of_Q (q : Q) : float :=
  PrimFloat.div (of_Z (Qnum q)) (of_Z (Zpos (Qden q))).

Definition to_Q (x : float) : option Q :=
  match Prim2SF x with
  | S754_zero _ => Some 0%Q
  | S754_finite s m e =>
      let v := (if s then Zneg m else Zpos m) in
      Some (if (e <? 0)%Z then (v # (2 ^ Z.to_pos (- e)))%Q
            else inject_Z (v * 2 ^ e))
  | _ => None
  end.

#[global] Instance arith : Arith float := {|
  lit := of_Q;
  add := PrimFloat.add;
  sub := PrimFloat.sub;
  mul := PrimFloat.mul;
  quot := PrimFloat.div;
  is_zero := fun x => PrimFloat.eqb x 0%float;
  exact_value := to_Q
|}.
End Binary64.

(** ** Data model *)

(** A dictionary with string keys, in insertion order. *)
Definition dict (V : Type) := list (string * V).

Definition keys {V} (d : dict V) : list string := map fst d.

(** [d[k]]; [None] stands for [KeyError]. *)
Fixpoint dict_get {V} (k : string) (d : dict V) : option V :=
  match d with
  | [] => None
  | (k', v) :: d' => if String.eqb k k' then Some v else dict_get k d'
  end.

(** [d[k] = v]: an existing key keeps its place, a new key goes last. *)
Fixpoint dict_set {V} (k : string) (v : V) (d : dict V) : dict V :=
  match d with
  | [] => [(k, v)]
  | (k', v') :: d' =>
      if String.eqb k k' then (k, v) :: d' else (k', v') :: dict_set k v d'
  end.

(** One entry of [people]: the value [load_data] stores under a name. *)
Record Person := {
  name : string;
  mother : option string;
  father : option string;
  trait : option bool
}.

(** A row of the CSV file as [csv.DictReader] hands it over: four strings. *)
Record Row := {
  row_name : string;
  row_mother : string;
  row_father : string;
  row_trait : string
}.

(** [s or None] on a string. *)
Definition or_None (s : string) : option string :=
  match s with EmptyString => None | _ => Some s end.

(** [load_data], from the rows the CSV reader yields. *)
Definition load_data (rows : list Row) : dict Person :=
  fold_left
    (fun data row =>
       let name := row_name row in
       dict_set name
         {| name := name;
            mother := or_None (row_mother row);
            father := or_None (row_father row);
            trait := if String.eqb (row_trait row) "1" then Some true
                     else if String.eqb (row_trait row) "0" then Some false
                     else None |}
         data)
    rows [].

(** The dictionary [load_data] stores for one row (lines 109 to 115). *)
Definition person_of_row (row : Row) : Person :=
  {| name := row_name row;
     mother := or_None (row_mother row);
     father := or_None (row_father row);
     trait := if String.eqb (row_trait row) "1" then Some true
              else if String.eqb (row_trait row) "0" then Some false
              else None |}.

(** A recorded parent is a non-empty name: [load_data] turns a blank field
    into [None]. *)
Definition parents_recorded (people : dict Person) : Prop :=
  ∀ person entry, (person, entry) ∈ people →
    mother entry ≠ Some EmptyString ∧ father entry ≠ Some EmptyString.

(** [not x] for [x] a name or [None]. *)
Definition falsy (x : option string) : bool :=
  match x with
  | None => true
  | Some EmptyString => true
  | Some _ => false
  end.

(** [x in s] for [x] a name or [None]; the sets hold names only. *)
Definition mem (x : option string) (s : gset string) : bool :=
  match x with
  | None => false
  | Some n => bool_decide (n ∈ s)
  end.

(** [(1 if x in one_gene else 2 if x in two_genes else 0)]. *)
Definition gene_count (x : option string) (one_gene two_genes : gset string) : Z :=
  if mem x one_gene then 1 else if mem x two_genes then 2 else 0.

(** [itertools.combinations(s, r)]: the [r]-element subsequences of [s], in
    lexicographic order of their positions. *)
Fixpoint combinations {A} (s : list A) (r : nat) : list (list A) :=
  match r with
  | O => [[]]
  | S r' =>
      match s with
      | [] => []
      | x :: s' => map (cons x) (combinations s' r') ++ combinations s' r
      end
  end.

(** [itertools.chain.from_iterable(itertools.combinations(s, r) for r in
    range(len(s) + 1))]: the tuples that [powerset] turns into sets. *)
Definition subsequences {A} (s : list A) : list (list A) :=
  flat_map (fun r => combinations s r) (seq 0 (length s + 1)).

(** [powerset(s)]: [list(s)] is [elements s], an enumeration of the set in
    an order of the implementation's choosing. *)
Definition powerset (s : gset string) : list (gset string) :=
  let s := elements s in
  map list_to_set (subsequences s).

(** What [main] keeps per person: [{"gene": {2:_, 1:_, 0:_},
    "trait": {True:_, False:_}}], fields in insertion order. *)
Record GeneDist (T : Type) := { g2 : T; g1 : T; g0 : T }.
Record TraitDist (T : Type) := { tTrue : T; tFalse : T }.
Record Marginal (T : Type) := { m_gene : GeneDist T; m_trait : TraitDist T }.
Arguments g2 {T}.
Arguments g1 {T}.
Arguments g0 {T}.
Arguments tTrue {T}.
Arguments tFalse {T}.
Arguments m_gene {T}.
Arguments m_trait {T}.
Arguments Build_GeneDist {T}.
Arguments Build_TraitDist {T}.
Arguments Build_Marginal {T}.


Definition trait_get {T} (k : bool) (d : TraitDist T) : T :=
  if k then tTrue d else tFalse d.

(** How a call that may raise ends: it returns, or [ZeroDivisionError]
    propagates; either way with the store as the in-place updates left it. *)
Inductive outcome (S : Type) :=
| Returned (store : S)
| ZeroDivisionError (store : S).
Arguments Returned {S}.
Arguments ZeroDivisionError {S}.

Definition store_of {S} (o : outcome S) : S :=
  match o with Returned s | ZeroDivisionError s => s end.

(** ** The program *)

Section Program.
Context {T : Type} `{Arith T}.
Local Open Scope num_scope.

(** [PROBS["gene"]]: keys 2, 1, 0.  The program only looks up the value of
    a [1 if ... else 2 if ... else 0] expression (see [gene_count_cases]). *)
Definition PROBS_gene (num_genes : Z) : T :=
  match num_genes with
  | 2%Z => lit 0.01
  | 1%Z => lit 0.03
  | _ => lit 0.96
  end.

(** [PROBS["trait"]]: probability of the trait given the number of copies. *)
Definition PROBS_trait (num_genes : Z) (has_trait : bool) : T :=
  match num_genes with
  | 2%Z => if has_trait then lit 0.65 else lit 0.35
  | 1%Z => if has_trait then lit 0.56 else lit 0.44
  | _ => if has_trait then lit 0.01 else lit 0.99
  end.

(** [PROBS["mutation"]]. *)
Definition PROBS_mutation : T := lit 0.01.

(** [inherit_prob(num_genes)]: probability of inheriting the gene from a
    parent who has [num_genes] copies. *)
Definition inherit_prob (num_genes : Z) : T :=
  if (num_genes =? 1)%Z then lit 0.5
  else if (num_genes =? 2)%Z then lit 1 - PROBS_mutation
  else PROBS_mutation.

(** The [if num_genes == 1 / elif num_genes == 2 / else] of
    [joint_probability]: the factor for a person with parents. *)
Definition child_gene_prob (num_genes : Z) (f_prob m_prob : T) : T :=
  if (num_genes =? 1)%Z then
    f_prob * (lit 1 - m_prob) + m_prob * (lit 1 - f_prob)
  else if (num_genes =? 2)%Z then
    f_prob * m_prob
  else
    (lit 1 - f_prob) * (lit 1 - m_prob).

(** The body of the loop of [joint_probability]: the value of [prob] when
    it is multiplied into [joint_prob]. *)
Definition person_prob (one_gene two_genes have_trait : gset string)
    (person : string) (entry : Person) : T :=
  let prob := lit 1 in
  let num_genes := gene_count (Some person) one_gene two_genes in
  let has_trait := mem (Some person) have_trait in
  let father := father entry in
  let mother := mother entry in
  let prob :=
    if falsy father && falsy mother then
      prob * PROBS_gene num_genes
    else
      let f_prob := inherit_prob (gene_count father one_gene two_genes) in
      let m_prob := inherit_prob (gene_count mother one_gene two_genes) in
      prob * child_gene_prob num_genes f_prob m_prob in
  prob * PROBS_trait num_genes has_trait.

(** [joint_probability(people, one_gene, two_genes, have_trait)].  The loop
    runs over the entries of [people]: [people[person]] is the entry that the
    key [person] came with. *)
Definition joint_probability (people : dict Person)
    (one_gene two_genes have_trait : gset string) : T :=
  fold_left
    (fun joint_prob '(person, entry) =>
       joint_prob * person_prob one_gene two_genes have_trait person entry)
    people (lit 1).

(** [dist[k] += p] on the two inner dictionaries. *)
Definition gene_add (k : Z) (p : T) (d : GeneDist T) : GeneDist T :=
  match k with
  | 2%Z => {| g2 := g2 d + p; g1 := g1 d; g0 := g0 d |}
  | 1%Z => {| g2 := g2 d; g1 := g1 d + p; g0 := g0 d |}
  | _ => {| g2 := g2 d; g1 := g1 d; g0 := g0 d + p |}
  end.

Definition trait_add (k : bool) (p : T) (d : TraitDist T) : TraitDist T :=
  if k then {| tTrue := tTrue d + p; tFalse := tFalse d |}
  else {| tTrue := tTrue d; tFalse := tFalse d + p |}.

(** The body of the loop of [update]. *)
Definition update_person (one_gene two_genes have_trait : gset string) (p : T)
    (person : string) (m : Marginal T) : Marginal T :=
  let num_genes := gene_count (Some person) one_gene two_genes in
  let has_trait := mem (Some person) have_trait in
  {| m_gene := gene_add num_genes p (m_gene m);
     m_trait := trait_add has_trait p (m_trait m) |}.

(** [update(probabilities, one_gene, two_genes, have_trait, p)]. *)
Definition update (probabilities : dict (Marginal T))
    (one_gene two_genes have_trait : gset string) (p : T) : dict (Marginal T) :=
  map (fun '(person, m) =>
         (person, update_person one_gene two_genes have_trait p person m))
      probabilities.

(** [sum(dist.values())]: from the integer 0, in the order of the keys.
    (On floats CPython 3.12 and later compensates the rounding errors of the
    additions, which can change the last bit of a total; the additions here
    are the plain ones.) *)
Definition gene_total (d : GeneDist T) : T := lit 0 + g2 d + g1 d + g0 d.
Definition trait_total (d : TraitDist T) : T := lit 0 + tTrue d + tFalse d.

(** The two inner loops of [normalize] on one distribution; [None] when
    [1/total] raises, which is before any value is written. *)
Definition normalize_gene (d : GeneDist T) : option (GeneDist T) :=
  let total := gene_total d in
  match div (lit 1) total with
  | None => None
  | Some inv =>
      Some {| g2 := g2 d * inv; g1 := g1 d * inv; g0 := g0 d * inv |}
  end.

Definition normalize_trait (d : TraitDist T) : option (TraitDist T) :=
  let total := trait_total d in
  match div (lit 1) total with
  | None => None
  | Some inv => Some {| tTrue := tTrue d * inv; tFalse := tFalse d * inv |}
  end.

(** [normalize(probabilities)]: people in order, ["gene"] before ["trait"].
    When a total is zero the exception leaves the distributions treated so
    far normalized and the rest as they were. *)
Fixpoint normalize (probabilities : dict (Marginal T))
    : outcome (dict (Marginal T)) :=
  match probabilities with
  | [] => Returned []
  | (person, m) :: rest =>
      match normalize_gene (m_gene m) with
      | None => ZeroDivisionError ((person, m) :: rest)
      | Some g =>
          match normalize_trait (m_trait m) with
          | None =>
              ZeroDivisionError
                ((person, {| m_gene := g; m_trait := m_trait m |}) :: rest)
          | Some t =>
              let m' := {| m_gene := g; m_trait := t |} in
              match normalize rest with
              | Returned rest' => Returned ((person, m') :: rest')
              | ZeroDivisionError rest' =>
                  ZeroDivisionError ((person, m') :: rest')
              end
          end
      end
  end.

(** The dictionary [probabilities] that [main] starts from. *)
Definition initial_probabilities (people : dict Person) : dict (Marginal T) :=
  map (fun '(person, _) =>
         (person,
          {| m_gene := {| g2 := lit 0; g1 := lit 0; g0 := lit 0 |};
             m_trait := {| tTrue := lit 0; tFalse := lit 0 |} |}))
      people.

(** [fails_evidence] of [main].  [names] is [set(people)], so the lookup
    [people[person]] finds an entry (see [dict_get_names]). *)
Definition fails_evidence (people : dict Person) (names have_trait : gset string)
    : bool :=
  existsb
    (fun person =>
       match dict_get person people with
       | Some entry =>
           match trait entry with
           | Some t => negb (eqb t (mem (Some person) have_trait))
           | None => false
           end
       | None => false
       end)
    (elements names).

(** The three nested loops of [main] (lines 63 to 82), threading the
    dictionary [probabilities]. *)
Definition main_loop (people : dict Person) : dict (Marginal T) :=
  let names : gset string := list_to_set (keys people) in
  fold_left
    (fun probabilities have_trait =>
       if fails_evidence people names have_trait then probabilities
       else
         fold_left
           (fun probabilities one_gene =>
              fold_left
                (fun probabilities two_genes =>
                   let p := joint_probability people one_gene two_genes have_trait in
                   update probabilities one_gene two_genes have_trait p)
                (powerset (names ∖ one_gene)) probabilities)
           (powerset names) probabilities)
    (powerset names) (initial_probabilities people).

(** The passes through the innermost loop body of [main], in order: for
    each one the triple [(have_trait, one_gene, two_genes)] it sees. *)
Definition hypotheses (people : dict Person)
    : list (gset string * gset string * gset string) :=
  let names : gset string := list_to_set (keys people) in
  flat_map
    (fun have_trait =>
       if fails_evidence people names have_trait then []
       else
         flat_map
           (fun one_gene =>
              map (fun two_genes => (have_trait, one_gene, two_genes))
                  (powerset (names ∖ one_gene)))
           (powerset names))
    (powerset names).

(** The innermost loop body of [main] (lines 81 and 82). *)
Definition accumulate (people : dict Person) (probabilities : dict (Marginal T))
    (h : gset string * gset string * gset string) : dict (Marginal T) :=
  let '(have_trait, one_gene, two_genes) := h in
  let p := joint_probability people one_gene two_genes have_trait in
  update probabilities one_gene two_genes have_trait p.

(** What one pass through the loop body of [main] does to the entry of
    one person. *)
Definition accumulate_person (people : dict Person) (person : string)
    (m : Marginal T) (h : gset string * gset string * gset string)
    : Marginal T :=
  let '(have_trait, one_gene, two_genes) := h in
  update_person one_gene two_genes have_trait
    (joint_probability people one_gene two_genes have_trait) person m.

(** [main] up to the printing: the loops, then [normalize]. *)
Definition main (people : dict Person) : outcome (dict (Marginal T)) :=
  normalize (main_loop people).

(** [x] after [x += p] when [hit], untouched otherwise. *)
Definition bumped (hit : bool) (x p : T) : T := if hit then x + p else x.

End Program.

(** ** The specification's reading of [joint_probability]

    These definitions follow the wording of the specification (sections 4.2
    and 4.3), not the code; [joint_probability_is_product] compares them
    with [joint_probability]. *)

Section SpecWords.
Context {T : Type} `{Arith T}.
Local Open Scope num_scope.






(** The product of a list of numbers, taken from 1 in the order of the
    list. *)
Definition product (l : list T) : T := fold_left mul l (lit 1).

End SpecWords.

(** ** Printing

    [main] prints each probability with [f"{p:.4f}"]: the decimal with four
    places nearest to the exact value of [p], ties to even.  [format_4f]
    gives that decimal as a number of ten-thousandths. *)
Definition round_half_even (q : Q) : Z :=
  let n := Qfloor q in
  match (q - inject_Z n ?= 1 # 2)%Q with
  | Lt => n
  | Gt => (n + 1)%Z
  | Eq => if Z.even n then n else (n + 1)%Z
  end.

Definition format_4f {T} `{Arith T} (p : T) : option Z :=
  match exact_value p with
  | Some q => Some (round_half_even (q * inject_Z 10000))
  | None => None
  end.

(** The numbers [main] prints for one person: gene 2, 1, 0, then trait
    True, False. *)
Definition print_person {T} `{Arith T} (m : Marginal T) : list (option Z) :=
  map format_4f
    [g2 (m_gene m); g1 (m_gene m); g0 (m_gene m);
     tTrue (m_trait m); tFalse (m_trait m)].

(** The numbers printed for a table of [probabilities]. *)
Definition print_table {T} `{Arith T} (probabilities : dict (Marginal T))
    : list (string * list (option Z)) :=
  map (fun '(person, m) => (person, print_person m)) probabilities.

(** What [main] prints: nothing when [normalize] raised. *)
Definition printed {T} `{Arith T} (o : outcome (dict (Marginal T)))
    : option (list (string * list (option Z))) :=
  match o with
  | Returned probabilities => Some (print_table probabilities)
  | ZeroDivisionError _ => None
  end.

(** The people of a pedigree whose recorded trait is [t]: known to have it
    ([Some true]), known not to ([Some false]), unknown ([None]). *)
Definition with_trait (t : option bool) (people : dict Person) : gset string :=
  filter (λ person, dict_get person people ≫= trait = t)
         (list_to_set (keys people) : gset string).

(** ** Pedigrees used as examples *)

(** One person, no parents, known to have the trait. *)
Definition alice : dict Person :=
  load_data
    [ {| row_name := "Alice"; row_mother := EmptyString;
         row_father := EmptyString; row_trait := "1" |} ].

(** A child with both parents: the father known to have the trait, the
    mother known not to, the child unknown. *)
Definition family : dict Person :=
  load_data
    [ {| row_name := "Harry"; row_mother := "Lily"; row_father := "James";
         row_trait := EmptyString |};
      {| row_name := "James"; row_mother := EmptyString;
         row_father := EmptyString; row_trait := "1" |};
      {| row_name := "Lily"; row_mother := EmptyString;
         row_father := EmptyString; row_trait := "0" |} ].

(** A child known not to have the trait, its mother known to have it, its
    father unknown. *)
Definition trio : dict Person :=
  load_data
    [ {| row_name := "C"; row_mother := "M"; row_father := "F";
         row_trait := "0" |};
      {| row_name := "M"; row_mother := EmptyString;
         row_father := EmptyString; row_trait := "1" |};
      {| row_name := "F"; row_mother := EmptyString;
         row_father := EmptyString; row_trait := EmptyString |} ].

(** A table of floats whose gene total is beyond the largest float. *)
Definition overflow_table : dict (Marginal float) :=
  [ ("A", {| m_gene := {| g2 := 1e308%float; g1 := 1e308%float;
                          g0 := 0%float |};
             m_trait := {| tTrue := 1%float; tFalse := 1%float |} |}) ].

(** A person whose distributions were never added to, next to one whose
    were. *)
Definition empty_then_full {T} `{Arith T} : dict (Marginal T) :=
  [ ("A", {| m_gene := {| g2 := lit 0; g1 := lit 0; g0 := lit 0 |};
             m_trait := {| tTrue := lit 0; tFalse := lit 0 |} |});
    ("B", {| m_gene := {| g2 := lit 1; g1 := lit 2; g0 := lit 1 |};
             m_trait := {| tTrue := lit 3; tFalse := lit 1 |} |}) ].

(** A table with one person and non-zero masses. *)
Definition full_table {T} `{Arith T} : dict (Marginal T) :=
  [ ("B", {| m_gene := {| g2 := lit 1; g1 := lit 2; g0 := lit 1 |};
             m_trait := {| tTrue := lit 3; tFalse := lit 1 |} |}) ].

(** ** Basic facts about the data model *)

Lemma gene_count_cases (x : option string) (one_gene two_genes : gset string) :
  gene_count x one_gene two_genes = 0%Z ∨
  gene_count x one_gene two_genes = 1%Z ∨
  gene_count x one_gene two_genes = 2%Z.
Proof. unfold gene_count. repeat case_match; auto. Qed.

(** [None] is in no set, so an absent parent counts as having no copy. *)
Lemma gene_count_None (one_gene two_genes : gset string) :
  gene_count None one_gene two_genes = 0%Z.
Proof. reflexivity. Qed.

Lemma gene_count_zero (person : string) (one_gene two_genes : gset string) :
  person ∉ one_gene → person ∉ two_genes →
  gene_count (Some person) one_gene two_genes = 0%Z.
Proof.
  intros H1 H2. unfold gene_count, mem.
  rewrite !bool_decide_eq_false_2 by assumption. reflexivity.
Qed.

(** ** The transmission probabilities *)

(** On exact rationals, a closed equation is decided on the numerators and
    denominators of the reduced fractions. *)
Ltac qc_closed := apply Qc_is_canon; vm_compute; reflexivity.

(** The operations of the interface, at the exact instance. *)
Ltac exact_ops :=
  change (@mul Qc Exact.arith) with Qcmult in *;
  change (@add Qc Exact.arith) with Qcplus in *;
  change (@sub Qc Exact.arith) with Qcminus in *;
  change (@quot Qc Exact.arith) with Qcdiv in *;
  change (@lit Qc Exact.arith) with Q2Qc in *.

(** C7: for a parent gene count [g] in {0, 1, 2}, [inherit_prob g] is 0.5
    when [g = 1], [1 - mutation] (which is 0.99) when [g = 2], and the
    mutation rate (0.01) when [g = 0]; in exact arithmetic and, literal for
    literal, in binary64. *)
Theorem inherit_prob_values (g : Z) :
  (g = 0 ∨ g = 1 ∨ g = 2)%Z →
  (∀ T (A : Arith T),
     @inherit_prob T A g =
       if (g =? 1)%Z then lit 0.5
       else if (g =? 2)%Z then sub (lit 1) PROBS_mutation
       else PROBS_mutation) ∧
  @PROBS_mutation Qc _ = Q2Qc 0.01 ∧
  @inherit_prob Qc _ g =
    Q2Qc (if (g =? 1)%Z then 0.5 else if (g =? 2)%Z then 0.99 else 0.01) ∧
  @PROBS_mutation float _ = 0.01%float ∧
  @inherit_prob float _ g =
    (if (g =? 1)%Z then 0.5 else if (g =? 2)%Z then 0.99 else 0.01)%float.
Proof.
  intros Hg. split; [reflexivity|].
  split; [reflexivity|].
  destruct Hg as [-> | [-> | ->]]; (split; [qc_closed|]); split; reflexivity.
Qed.

Lemma inherit_prob_values_witness :
  @inherit_prob Qc _ 2 = Q2Qc 0.99 ∧ @inherit_prob float _ 2 = 0.99%float.
Proof.
  pose proof (inherit_prob_values 2 (or_intror (or_intror eq_refl)))
    as (_ & _ & Hq & _ & Hf).
  exact (conj Hq Hf).
Defined.

(** C8: for parent gene counts [f], [m] in {0, 1, 2}, with
    [pf = inherit_prob f] and [pm = inherit_prob m], the probabilities
    [pf*pm] (two copies), [(1-pf)*(1-pm)] (none) and
    [pf*(1-pm) + pm*(1-pf)] (one) sum to 1: in exact arithmetic, and in
    binary64 the rounded sum is the float 1.0 as well. *)
Theorem child_distribution_sums_to_one (f m : Z) :
  (0 ≤ f ≤ 2)%Z → (0 ≤ m ≤ 2)%Z →
  (let pf := @inherit_prob Qc _ f in
   let pm := @inherit_prob Qc _ m in
   child_gene_prob 2 pf pm = (pf * pm)%Qc ∧
   child_gene_prob 0 pf pm = ((1 - pf) * (1 - pm))%Qc ∧
   child_gene_prob 1 pf pm = (pf * (1 - pm) + pm * (1 - pf))%Qc ∧
   (pf * pm + (1 - pf) * (1 - pm) + (pf * (1 - pm) + pm * (1 - pf)))%Qc = 1%Qc) ∧
  (let pf := @inherit_prob float _ f in
   let pm := @inherit_prob float _ m in
   (child_gene_prob 2 pf pm + child_gene_prob 0 pf pm
    + child_gene_prob 1 pf pm)%num = 1%float).
Proof.
  intros Hf Hm. split.
  - cbv zeta. repeat split; try reflexivity. ring.
  - assert (f = 0 ∨ f = 1 ∨ f = 2)%Z as [-> | [-> | ->]] by lia;
      assert (m = 0 ∨ m = 1 ∨ m = 2)%Z as [-> | [-> | ->]] by lia;
      vm_compute; reflexivity.
Qed.

Lemma child_distribution_sums_to_one_witness :
  (let pf := @inherit_prob float _ 1 in
   let pm := @inherit_prob float _ 2 in
   (child_gene_prob 2 pf pm + child_gene_prob 0 pf pm
    + child_gene_prob 1 pf pm)%num = 1%float).
Proof.
  refine (proj2 (child_distribution_sums_to_one 1 2 _ _)); lia.
Defined.

(** ** [joint_probability]: the loop and its body *)

Section JointProbability.
Context {T : Type} `{Arith T}.
Local Open Scope num_scope.


(** An absent parent is in neither set: its transmission probability is the
    mutation rate. *)
Lemma inherit_prob_absent (one_gene two_genes : gset string) :
  inherit_prob (gene_count None one_gene two_genes) = PROBS_mutation.
Proof. reflexivity. Qed.


End JointProbability.


(** ** [update] *)

Section Update.
Context {T : Type} `{Arith T}.
Local Open Scope num_scope.

Lemma keys_update (probabilities : dict (Marginal T))
    (one_gene two_genes have_trait : gset string) (p : T) :
  keys (update probabilities one_gene two_genes have_trait p) =
  keys probabilities.
Proof.
  unfold update, keys. rewrite map_map. apply map_ext. intros [? ?]. reflexivity.
Qed.

Lemma dict_get_update (probabilities : dict (Marginal T))
    (one_gene two_genes have_trait : gset string) (p : T) (person : string) :
  dict_get person (update probabilities one_gene two_genes have_trait p) =
  option_map (update_person one_gene two_genes have_trait p person)
    (dict_get person probabilities).
Proof.
  induction probabilities as [|[k m] rest IH]; [reflexivity|].
  cbn. destruct (String.eqb_spec person k) as [-> | Hne]; [reflexivity|].
  exact IH.
Qed.

(** C10: one call of [update] adds [p], for each person of
    [probabilities], to the gene bucket of that person's hypothesized gene
    count and to the trait bucket of that person's hypothesized trait, and
    to no other bucket; it changes no key. *)
Theorem update_frame (probabilities : dict (Marginal T))
    (one_gene two_genes have_trait : gset string) (p : T)
    (person : string) (m : Marginal T) :
  dict_get person probabilities = Some m →
  let num_genes := gene_count (Some person) one_gene two_genes in
  let has_trait := mem (Some person) have_trait in
  let probabilities' := update probabilities one_gene two_genes have_trait p in
  keys probabilities' = keys probabilities ∧
  ∃ m', dict_get person probabilities' = Some m' ∧
    g2 (m_gene m') = bumped (num_genes =? 2)%Z (g2 (m_gene m)) p ∧
    g1 (m_gene m') = bumped (num_genes =? 1)%Z (g1 (m_gene m)) p ∧
    g0 (m_gene m') = bumped (num_genes =? 0)%Z (g0 (m_gene m)) p ∧
    tTrue (m_trait m') = bumped has_trait (tTrue (m_trait m)) p ∧
    tFalse (m_trait m') = bumped (negb has_trait) (tFalse (m_trait m)) p ∧
    (person ∈ one_gene → num_genes = 1%Z) ∧
    (person ∉ one_gene → person ∈ two_genes → num_genes = 2%Z) ∧
    (person ∉ one_gene → person ∉ two_genes → num_genes = 0%Z) ∧
    (has_trait = true ↔ person ∈ have_trait).
Proof.
  intros Hget num_genes has_trait probabilities'.
  split; [apply keys_update|].
  exists (update_person one_gene two_genes have_trait p person m).
  split.
  { unfold probabilities'. rewrite dict_get_update, Hget. reflexivity. }
  unfold update_person. fold num_genes has_trait. cbn [m_gene m_trait].
  repeat split.
  - destruct (gene_count_cases (Some person) one_gene two_genes) as [E|[E|E]];
      fold num_genes in E; rewrite E; reflexivity.
  - destruct (gene_count_cases (Some person) one_gene two_genes) as [E|[E|E]];
      fold num_genes in E; rewrite E; reflexivity.
  - destruct (gene_count_cases (Some person) one_gene two_genes) as [E|[E|E]];
      fold num_genes in E; rewrite E; reflexivity.
  - destruct has_trait; reflexivity.
  - destruct has_trait; reflexivity.
  - intros Hin. unfold num_genes, gene_count, mem.
    rewrite bool_decide_eq_true_2 by assumption. reflexivity.
  - intros Hn Hin. unfold num_genes, gene_count, mem.
    rewrite bool_decide_eq_false_2 by assumption.
    rewrite bool_decide_eq_true_2 by assumption. reflexivity.
  - intros Hn Hn'. apply gene_count_zero; assumption.
  - unfold has_trait, mem. intros E. apply bool_decide_eq_true in E. exact E.
  - unfold has_trait, mem. intros E. apply bool_decide_eq_true. exact E.
Qed.

End Update.

(** ** [normalize] *)

Section Normalize.
Context {T : Type} `{Arith T}.
Local Open Scope num_scope.

Lemma normalize_gene_None (d : GeneDist T) :
  normalize_gene d = None ↔ is_zero (gene_total d) = true.
Proof.
  unfold normalize_gene, div. cbv zeta.
  destruct (is_zero (gene_total d)); split;
    intros; congruence.
Qed.

Lemma normalize_trait_None (d : TraitDist T) :
  normalize_trait d = None ↔ is_zero (trait_total d) = true.
Proof.
  unfold normalize_trait, div. cbv zeta.
  destruct (is_zero (trait_total d)); split;
    intros; congruence.
Qed.

(** Whether it returns or raises, [normalize] keeps the keys. *)
Lemma keys_normalize (probabilities : dict (Marginal T)) :
  keys (store_of (normalize probabilities)) = keys probabilities.
Proof.
  induction probabilities as [|[person m] rest IH]; [reflexivity|].
  cbn. destruct (normalize_gene (m_gene m)); [|reflexivity].
  destruct (normalize_trait (m_trait m)); [|reflexivity].
  destruct (normalize rest); cbn in *; f_equal; exact IH.
Qed.

(** When the division succeeds, every value is multiplied by [1/total]. *)
Lemma normalize_gene_Some (d g : GeneDist T) :
  normalize_gene d = Some g →
  is_zero (gene_total d) = false ∧
  g = {| g2 := g2 d * quot (lit 1) (gene_total d);
         g1 := g1 d * quot (lit 1) (gene_total d);
         g0 := g0 d * quot (lit 1) (gene_total d) |}.
Proof.
  unfold normalize_gene, div. cbv zeta.
  destruct (is_zero (gene_total d)); [discriminate|].
  intros [= <-]. split; reflexivity.
Qed.

Lemma normalize_trait_Some (d t : TraitDist T) :
  normalize_trait d = Some t →
  is_zero (trait_total d) = false ∧
  t = {| tTrue := tTrue d * quot (lit 1) (trait_total d);
         tFalse := tFalse d * quot (lit 1) (trait_total d) |}.
Proof.
  unfold normalize_trait, div. cbv zeta.
  destruct (is_zero (trait_total d)); [discriminate|].
  intros [= <-]. split; reflexivity.
Qed.

(** A zero total anywhere makes [normalize] raise. *)
Lemma normalize_raises (probabilities : dict (Marginal T))
    (person : string) (m : Marginal T) :
  In (person, m) probabilities →
  is_zero (gene_total (m_gene m)) = true ∨
  is_zero (trait_total (m_trait m)) = true →
  ∃ store, normalize probabilities = ZeroDivisionError store.
Proof.
  induction probabilities as [|[q mq] rest IH]; intros Hin Hz; [destruct Hin|].
  cbn. destruct (normalize_gene (m_gene mq)) as [g|] eqn:Eg; [|eauto].
  destruct (normalize_trait (m_trait mq)) as [t|] eqn:Et; [|eauto].
  destruct Hin as [Heq | Hin].
  - inversion Heq; subst. destruct Hz as [Hz | Hz].
    + apply normalize_gene_None in Hz. congruence.
    + apply normalize_trait_None in Hz. congruence.
  - destruct (IH Hin Hz) as [store ->]. eauto.
Qed.

(** Without a zero total it returns. *)
Lemma normalize_returns (probabilities : dict (Marginal T)) :
  (∀ person m, In (person, m) probabilities →
     is_zero (gene_total (m_gene m)) = false ∧
     is_zero (trait_total (m_trait m)) = false) →
  ∃ probabilities', normalize probabilities = Returned probabilities'.
Proof.
  induction probabilities as [|[q mq] rest IH]; intros Hnz; [cbn; eauto|].
  cbn. destruct (Hnz q mq (or_introl eq_refl)) as [Hg Ht].
  destruct (normalize_gene (m_gene mq)) as [g|] eqn:Eg;
    [|apply normalize_gene_None in Eg; congruence].
  destruct (normalize_trait (m_trait mq)) as [t|] eqn:Et;
    [|apply normalize_trait_None in Et; congruence].
  assert (Hrest : ∃ rest', normalize rest = Returned rest').
  { apply IH. intros person m Hin. apply (Hnz person). right. exact Hin. }
  destruct Hrest as [rest' ->]. eauto.
Qed.

(** When it returns, every person's two distributions were rescaled. *)
Lemma normalize_Returned_get (probabilities probabilities' : dict (Marginal T))
    (person : string) (m : Marginal T) :
  normalize probabilities = Returned probabilities' →
  dict_get person probabilities = Some m →
  ∃ g t, normalize_gene (m_gene m) = Some g ∧
         normalize_trait (m_trait m) = Some t ∧
         dict_get person probabilities' =
           Some {| m_gene := g; m_trait := t |}.
Proof.
  revert probabilities'.
  induction probabilities as [|[q mq] rest IH]; intros probabilities' Hn Hget;
    [discriminate|].
  cbn in Hn, Hget.
  destruct (normalize_gene (m_gene mq)) as [g|] eqn:Eg; [|discriminate].
  destruct (normalize_trait (m_trait mq)) as [t|] eqn:Et; [|discriminate].
  destruct (normalize rest) as [rest'|] eqn:Er; [|discriminate].
  inversion Hn; subst probabilities'. cbn.
  destruct (String.eqb person q).
  - inversion Hget; subst. eauto.
  - eapply IH; eauto.
Qed.

(** Where the exception leaves the store: the entries before the first
    zero total are normalized, the entry with the zero total has at most its
    gene distribution normalized, and the entries after it are untouched. *)
Lemma normalize_raised_store (probabilities store : dict (Marginal T)) :
  normalize probabilities = ZeroDivisionError store →
  ∃ before before' person m rest,
    probabilities = before ++ (person, m) :: rest ∧
    normalize before = Returned before' ∧
    ((normalize_gene (m_gene m) = None ∧
      store = before' ++ (person, m) :: rest) ∨
     (∃ g, normalize_gene (m_gene m) = Some g ∧
           normalize_trait (m_trait m) = None ∧
           store = before' ++ (person, {| m_gene := g; m_trait := m_trait m |})
                     :: rest)).
Proof.
  revert store. induction probabilities as [|[q mq] tail IH]; intros store Hn;
    [discriminate|].
  cbn in Hn. destruct (normalize_gene (m_gene mq)) as [g|] eqn:Eg.
  - destruct (normalize_trait (m_trait mq)) as [t|] eqn:Et.
    + destruct (normalize tail) as [tail'|tail'] eqn:Etail; [discriminate|].
      injection Hn as <-.
      destruct (IH tail' eq_refl) as (before & before' & person & m & rest
                                      & -> & Hbefore & Hstore).
      exists ((q, mq) :: before),
             ((q, {| m_gene := g; m_trait := t |}) :: before'), person, m, rest.
      split; [reflexivity|]. split.
      * cbn. rewrite Eg, Et, Hbefore. reflexivity.
      * destruct Hstore as [[Hg ->] | (g' & Hg & Ht & ->)]; [left | right]; eauto.
    + injection Hn as <-. exists [], [], q, mq, tail.
      split; [reflexivity|]. split; [reflexivity|]. right. eauto.
  - injection Hn as <-. exists [], [], q, mq, tail.
    split; [reflexivity|]. split; [reflexivity|]. left. eauto.
Qed.

(** C6 (as amended): when some distribution handed to [normalize] sums to
    exactly 0, the division [1/total] raises [ZeroDivisionError]: the call
    does not return and no value of a distribution with a zero total is
    written.  The exception comes from the first zero total (people in
    order, gene before trait); the distributions before it are normalized,
    that one and all later ones are left as they were, and the dictionary
    keeps its keys. *)
Theorem normalize_zero_total_raises (probabilities : dict (Marginal T))
    (person : string) (m : Marginal T) :
  In (person, m) probabilities →
  is_zero (gene_total (m_gene m)) = true ∨
  is_zero (trait_total (m_trait m)) = true →
  (is_zero (gene_total (m_gene m)) = true → normalize_gene (m_gene m) = None) ∧
  (is_zero (trait_total (m_trait m)) = true →
   normalize_trait (m_trait m) = None) ∧
  ∃ store,
    normalize probabilities = ZeroDivisionError store ∧
    keys store = keys probabilities ∧
    (∀ probabilities', normalize probabilities ≠ Returned probabilities') ∧
    ∃ before before' person0 m0 rest,
      probabilities = before ++ (person0, m0) :: rest ∧
      normalize before = Returned before' ∧
      ((is_zero (gene_total (m_gene m0)) = true ∧
        store = before' ++ (person0, m0) :: rest) ∨
       (∃ g, normalize_gene (m_gene m0) = Some g ∧
             is_zero (trait_total (m_trait m0)) = true ∧
             store = before'
                     ++ (person0, {| m_gene := g; m_trait := m_trait m0 |})
                     :: rest)).
Proof.
  intros Hin Hz.
  split; [apply normalize_gene_None|].
  split; [apply normalize_trait_None|].
  destruct (normalize_raises _ _ _ Hin Hz) as [store Hs].
  exists store. split; [exact Hs|]. split; [|split].
  - pose proof (keys_normalize probabilities) as Hk. rewrite Hs in Hk. exact Hk.
  - intros probabilities'. rewrite Hs. discriminate.
  - destruct (normalize_raised_store _ _ Hs)
      as (before & before' & person0 & m0 & rest & Hsplit & Hbefore & Hstore).
    exists before, before', person0, m0, rest.
    split; [exact Hsplit|]. split; [exact Hbefore|].
    destruct Hstore as [[Hg ->] | (g & Hg & Ht & ->)]; [left | right].
    + split; [apply normalize_gene_None; exact Hg | reflexivity].
    + exists g. split; [exact Hg|]. split; [|reflexivity].
      apply normalize_trait_None. exact Ht.
Qed.

End Normalize.

(** ** [normalize] in exact arithmetic *)

Section NormalizeExact.
Local Open Scope Qc_scope.

Lemma exact_is_zero (x : Qc) : is_zero x = true ↔ x = 0.
Proof.
  cbn. rewrite Qeq_bool_iff. split.
  - intros E. apply Qc_is_canon. exact E.
  - intros ->. reflexivity.
Qed.

Lemma exact_is_zero_false (x : Qc) : is_zero x = false ↔ x ≠ 0.
Proof.
  rewrite <- exact_is_zero. destruct (is_zero x); split; congruence.
Qed.

Lemma exact_div (x y : Qc) : y ≠ 0 → div x y = Some (x / y).
Proof.
  intros Hy. unfold div. apply exact_is_zero_false in Hy. rewrite Hy.
  reflexivity.
Qed.

Lemma exact_normalize_gene (d g : GeneDist Qc) :
  normalize_gene d = Some g →
  gene_total d ≠ 0 ∧
  g = {| g2 := g2 d * (1 / gene_total d);
         g1 := g1 d * (1 / gene_total d);
         g0 := g0 d * (1 / gene_total d) |}.
Proof.
  unfold normalize_gene, div. cbv zeta.
  destruct (is_zero (gene_total d)) eqn:E; [discriminate|].
  apply exact_is_zero_false in E. intros [= <-]. split; [exact E|reflexivity].
Qed.

Lemma exact_normalize_trait (d t : TraitDist Qc) :
  normalize_trait d = Some t →
  trait_total d ≠ 0 ∧
  t = {| tTrue := tTrue d * (1 / trait_total d);
         tFalse := tFalse d * (1 / trait_total d) |}.
Proof.
  unfold normalize_trait, div. cbv zeta.
  destruct (is_zero (trait_total d)) eqn:E; [discriminate|].
  apply exact_is_zero_false in E. intros [= <-]. split; [exact E|reflexivity].
Qed.

Lemma Qc_inv_pos (x : Qc) : 0 < x → 0 < 1 / x.
Proof.
  intros Hx. unfold Qcdiv. rewrite Qcmult_1_l.
  unfold Qclt in *. cbn in *.
  eapply Qlt_compat; [reflexivity | apply Qred_correct |].
  apply Qinv_lt_0_compat. exact Hx.
Qed.

(** [normalize] in exact arithmetic: it returns when no total of the table
    is zero; and when it has returned, a person whose distributions both had
    a positive total has distributions that sum to 1, each obtained from the
    old values by one positive factor. *)
Lemma exact_normalize_sums (probabilities : dict (Marginal Qc)) :
  ((∀ q mq, In (q, mq) probabilities →
      gene_total (m_gene mq) ≠ 0 ∧ trait_total (m_trait mq) ≠ 0) →
   ∃ probabilities', normalize probabilities = Returned probabilities') ∧
  (∀ probabilities' person m,
     normalize probabilities = Returned probabilities' →
     dict_get person probabilities = Some m →
     0 < gene_total (m_gene m) →
     0 < trait_total (m_trait m) →
     ∃ m', dict_get person probabilities' = Some m' ∧
       gene_total (m_gene m') = 1 ∧
       trait_total (m_trait m') = 1 ∧
       (∃ c, 0 < c ∧
          g2 (m_gene m') = g2 (m_gene m) * c ∧
          g1 (m_gene m') = g1 (m_gene m) * c ∧
          g0 (m_gene m') = g0 (m_gene m) * c) ∧
       (∃ c, 0 < c ∧
          tTrue (m_trait m') = tTrue (m_trait m) * c ∧
          tFalse (m_trait m') = tFalse (m_trait m) * c)).
Proof.
  split.
  - intros Hnz. apply normalize_returns. intros person m Hin.
    destruct (Hnz person m Hin) as [Hg Ht].
    split; apply exact_is_zero_false; assumption.
  - intros probabilities' person m Hn Hget Hg Ht.
    destruct (normalize_Returned_get _ _ _ _ Hn Hget) as (g & t & Eg & Et & Hget').
    apply exact_normalize_gene in Eg as [Hgz ->].
    apply exact_normalize_trait in Et as [Htz ->].
    eexists. split; [exact Hget'|]. cbn [m_gene m_trait].
    split; [|split; [|split]].
    + unfold gene_total in *. cbn in *. field.
      intros E. apply Hgz. etransitivity; [|exact E]. ring.
    + unfold trait_total in *. cbn in *. field.
      intros E. apply Htz. etransitivity; [|exact E]. ring.
    + exists (1 / gene_total (m_gene m)). split; [apply Qc_inv_pos; exact Hg|].
      cbn. auto.
    + exists (1 / trait_total (m_trait m)). split; [apply Qc_inv_pos; exact Ht|].
      cbn. auto.
Qed.

(** C4 (as amended): when [normalize] has returned, which it does when no
    distribution of the table has a zero total, every value of a person's
    gene distribution is the old value times [1/total] of that
    distribution, and likewise for the trait distribution, with floats as
    with exact numbers.  In exact arithmetic, for a person whose two
    distributions had a strictly positive total, that factor is positive
    (so the relative proportions are kept), the gene distribution sums to 1
    and the trait distribution sums to 1. *)
Theorem normalize_sums_to_one :
  (∀ T (A : Arith T) (probabilities probabilities' : dict (Marginal T))
     (person : string) (m : Marginal T),
     normalize probabilities = Returned probabilities' →
     dict_get person probabilities = Some m →
     ∃ m', dict_get person probabilities' = Some m' ∧
       let cg := quot (lit 1) (gene_total (m_gene m)) in
       let ct := quot (lit 1) (trait_total (m_trait m)) in
       g2 (m_gene m') = mul (g2 (m_gene m)) cg ∧
       g1 (m_gene m') = mul (g1 (m_gene m)) cg ∧
       g0 (m_gene m') = mul (g0 (m_gene m)) cg ∧
       tTrue (m_trait m') = mul (tTrue (m_trait m)) ct ∧
       tFalse (m_trait m') = mul (tFalse (m_trait m)) ct) ∧
  (∀ probabilities : dict (Marginal Qc),
     ((∀ q mq, In (q, mq) probabilities →
         gene_total (m_gene mq) ≠ 0 ∧ trait_total (m_trait mq) ≠ 0) →
      ∃ probabilities', normalize probabilities = Returned probabilities') ∧
     (∀ probabilities' person m,
        normalize probabilities = Returned probabilities' →
        dict_get person probabilities = Some m →
        0 < gene_total (m_gene m) →
        0 < trait_total (m_trait m) →
        ∃ m', dict_get person probabilities' = Some m' ∧
          gene_total (m_gene m') = 1 ∧
          trait_total (m_trait m') = 1 ∧
          (∃ c, 0 < c ∧
             g2 (m_gene m') = g2 (m_gene m) * c ∧
             g1 (m_gene m') = g1 (m_gene m) * c ∧
             g0 (m_gene m') = g0 (m_gene m) * c) ∧
          (∃ c, 0 < c ∧
             tTrue (m_trait m') = tTrue (m_trait m) * c ∧
             tFalse (m_trait m') = tFalse (m_trait m) * c))).
Proof.
  split; [|exact exact_normalize_sums].
  intros T A probabilities probabilities' person m Hn Hget.
  destruct (normalize_Returned_get _ _ _ _ Hn Hget) as (g & t & Eg & Et & Hget').
  apply normalize_gene_Some in Eg as [_ ->].
  apply normalize_trait_Some in Et as [_ ->].
  eexists. split; [exact Hget'|]. cbv zeta. cbn [m_gene m_trait g2 g1 g0 tTrue tFalse].
  repeat split.
Qed.

End NormalizeExact.

(** ** The enumeration of [main] *)

Section Lists.
Context {A B : Type}.

Lemma fold_left_flat_map {C} (f : C → B → C) (g : A → list B) (l : list A) (c : C) :
  fold_left f (flat_map g l) c = fold_left (fun c x => fold_left f (g x) c) l c.
Proof.
  revert c. induction l as [|x l IH]; intros c; [reflexivity|].
  cbn. rewrite fold_left_app. apply IH.
Qed.

Lemma fold_left_map {C} (f : C → B → C) (g : A → B) (l : list A) (c : C) :
  fold_left f (map g l) c = fold_left (fun c x => f c (g x)) l c.
Proof.
  revert c. induction l as [|x l IH]; intros c; [reflexivity|]. cbn. apply IH.
Qed.

Lemma fold_left_ext {C} (f g : C → A → C) (l : list A) (c : C) :
  (∀ c x, f c x = g c x) → fold_left f l c = fold_left g l c.
Proof.
  intros Hfg. revert c. induction l as [|x l IH]; intros c; [reflexivity|].
  cbn. rewrite Hfg. apply IH.
Qed.

(** The list functions of the Standard Library are stdpp's. *)
Lemma map_fmap (f : A → B) (l : list A) : map f l = f <$> l.
Proof. reflexivity. Qed.

Lemma flat_map_bind (f : A → list B) (l : list A) : flat_map f l = l ≫= f.
Proof. reflexivity. Qed.

Lemma elem_of_map (f : A → B) (l : list A) (y : B) :
  y ∈ map f l ↔ ∃ x, y = f x ∧ x ∈ l.
Proof. rewrite map_fmap. apply list_elem_of_fmap. Qed.

Lemma elem_of_flat_map (f : A → list B) (l : list A) (y : B) :
  y ∈ flat_map f l ↔ ∃ x, y ∈ f x ∧ x ∈ l.
Proof. rewrite flat_map_bind. apply list_elem_of_bind. Qed.

Lemma NoDup_map_on (f : A → B) (l : list A) :
  (∀ x y, x ∈ l → y ∈ l → f x = f y → x = y) →
  NoDup l → NoDup (map f l).
Proof. rewrite map_fmap. apply NoDup_fmap_2_strong. Qed.

Lemma NoDup_flat_map (f : A → list B) (l : list A) :
  (∀ x y b, x ∈ l → y ∈ l → b ∈ f x → b ∈ f y → x = y) →
  (∀ x, x ∈ l → NoDup (f x)) →
  NoDup l → NoDup (flat_map f l).
Proof. rewrite flat_map_bind. apply NoDup_bind. Qed.

End Lists.

(** *** [itertools.combinations] and [powerset] *)

Section Combinations.
Context {A : Type}.

(** [combinations s r] lists the subsequences of [s] that have length [r]. *)
Lemma elem_of_combinations (s c : list A) (r : nat) :
  c ∈ combinations s r ↔ c `sublist_of` s ∧ length c = r.
Proof.
  revert c r. induction s as [|x s IH]; intros c [|r]; cbn.
  - rewrite list_elem_of_singleton, sublist_nil_r. split.
    + intros ->. auto.
    + tauto.
  - rewrite elem_of_nil, sublist_nil_r. split; [tauto|].
    intros [-> Hlen]. discriminate.
  - rewrite list_elem_of_singleton. split.
    + intros ->. split; [apply sublist_nil_l | reflexivity].
    + intros [_ Hlen]. destruct c; [reflexivity | discriminate].
  - rewrite elem_of_app, elem_of_map, sublist_cons_r. split.
    + intros [(c' & -> & Hc') | Hc].
      * apply IH in Hc' as [Hsub Hlen]. cbn. split; [right; eauto | congruence].
      * apply IH in Hc as [Hsub Hlen]. auto.
    + intros [[Hsub | (c' & -> & Hsub)] Hlen].
      * right. apply IH. auto.
      * left. exists c'. split; [reflexivity|]. apply IH. cbn in Hlen.
        split; [assumption | congruence].
Qed.

Lemma sublist_elem_of (c s : list A) (x : A) :
  c `sublist_of` s → x ∈ c → x ∈ s.
Proof.
  intros Hsub Hx. apply sublist_submseteq in Hsub.
  eapply elem_of_submseteq; eassumption.
Qed.

Lemma NoDup_combinations (s : list A) (r : nat) :
  NoDup s → NoDup (combinations s r).
Proof.
  intros Hnd. revert r. induction Hnd as [|x s Hx Hnd IH]; intros [|r]; cbn.
  - apply NoDup_singleton.
  - constructor.
  - apply NoDup_singleton.
  - apply NoDup_app. split; [|split].
    + apply NoDup_map_on; [|apply IH]. intros ? ? _ _ [=]. assumption.
    + intros c Hc Hc'. apply elem_of_map in Hc as (c' & -> & _).
      apply elem_of_combinations in Hc' as [Hsub _].
      apply Hx. eapply sublist_elem_of; [exact Hsub|]. left.
    + apply IH.
Qed.

Lemma elem_of_subsequences (s c : list A) :
  c ∈ subsequences s ↔ c `sublist_of` s.
Proof.
  unfold subsequences. rewrite elem_of_flat_map. split.
  - intros (r & Hc & _). apply elem_of_combinations in Hc as [Hsub _].
    exact Hsub.
  - intros Hsub. exists (length c). split.
    + apply elem_of_combinations. auto.
    + apply elem_of_seq. apply sublist_length in Hsub. lia.
Qed.

Lemma NoDup_subsequences (s : list A) :
  NoDup s → NoDup (subsequences s).
Proof.
  intros Hnd. apply NoDup_flat_map.
  - intros r1 r2 c _ _ H1 H2.
    apply elem_of_combinations in H1 as [_ <-].
    apply elem_of_combinations in H2 as [_ <-]. reflexivity.
  - intros r _. apply NoDup_combinations. exact Hnd.
  - apply NoDup_seq.
Qed.

End Combinations.

Section Powerset.
Implicit Types (s x : gset string) (c l : list string).

(** Two subsequences of a duplicate-free list with the same elements are
    the same subsequence. *)
Lemma sublist_list_to_set_inj l c1 c2 :
  NoDup l → c1 `sublist_of` l → c2 `sublist_of` l →
  list_to_set c1 =@{gset string} list_to_set c2 → c1 = c2.
Proof.
  intros Hnd. revert c1 c2.
  induction Hnd as [|a l Ha Hnd IH]; intros c1 c2 H1 H2 Heq.
  - apply sublist_nil_r in H1, H2. congruence.
  - apply sublist_cons_r in H1 as [H1 | (c1' & -> & H1)];
      apply sublist_cons_r in H2 as [H2 | (c2' & -> & H2)].
    + apply IH; assumption.
    + exfalso. apply Ha. eapply sublist_elem_of; [exact H1|].
      apply (elem_of_list_to_set (C:=gset string)). rewrite Heq.
      cbn. set_solver.
    + exfalso. apply Ha. eapply sublist_elem_of; [exact H2|].
      apply (elem_of_list_to_set (C:=gset string)). rewrite <- Heq.
      cbn. set_solver.
    + f_equal. apply IH; [assumption..|].
      assert (N1 : a ∉ (list_to_set c1' : gset string)).
      { intros Hin%elem_of_list_to_set. apply Ha.
        exact (sublist_elem_of c1' l a H1 Hin). }
      assert (N2 : a ∉ (list_to_set c2' : gset string)).
      { intros Hin%elem_of_list_to_set. apply Ha.
        exact (sublist_elem_of c2' l a H2 Hin). }
      cbn in Heq. set_solver.
Qed.

(** [powerset s] holds the subsets of [s] and nothing else. *)
Lemma elem_of_powerset s x : x ∈ powerset s ↔ x ⊆ s.
Proof.
  unfold powerset. rewrite elem_of_map. split.
  - intros (c & -> & Hc). apply elem_of_subsequences in Hc.
    intros a Ha. apply elem_of_list_to_set in Ha. apply elem_of_elements.
    eapply sublist_elem_of; eassumption.
  - intros Hsub. exists (filter (λ a, a ∈ x) (elements s)). split.
    + apply set_eq. intros a.
      rewrite elem_of_list_to_set, list_elem_of_filter, elem_of_elements.
      set_solver.
    + apply elem_of_subsequences. apply sublist_filter.
Qed.

(** ... each of them once. *)
Lemma NoDup_powerset s : NoDup (powerset s).
Proof.
  unfold powerset. apply NoDup_map_on.
  - intros c1 c2 H1 H2 Heq. apply elem_of_subsequences in H1, H2.
    exact (sublist_list_to_set_inj (elements s) c1 c2 (NoDup_elements s) H1 H2 Heq).
  - apply NoDup_subsequences. apply NoDup_elements.
Qed.

End Powerset.

(** *** The hypotheses [main] goes through *)

Lemma dict_get_names {V} (d : dict V) (k : string) :
  k ∈ (list_to_set (keys d) : gset string) ↔ ∃ v, dict_get k d = Some v.
Proof.
  induction d as [|[k' v'] d IH]; cbn.
  - split; [set_solver | intros [? [=]]].
  - rewrite elem_of_union, elem_of_singleton, IH.
    destruct (String.eqb_spec k k') as [-> | Hne]; split; eauto.
    intros [? | ?]; [contradiction | assumption].
Qed.

(** What [mem] computes on a name. *)
Lemma mem_Some (person : string) (s : gset string) :
  mem (Some person) s = true ↔ person ∈ s.
Proof. cbn. apply bool_decide_eq_true. Qed.

(** The evidence check of one person: the [any(...)] element is [False]
    exactly when the hypothesis agrees with a known trait. *)
Lemma evidence_agrees (t : option bool) (person : string) (have_trait : gset string) :
  match t with
  | Some t => negb (eqb t (mem (Some person) have_trait))
  | None => false
  end = false ↔
  (t = Some true → person ∈ have_trait) ∧
  (t = Some false → person ∉ have_trait).
Proof.
  rewrite <- mem_Some.
  destruct t as [[|]|]; destruct (mem (Some person) have_trait); cbn;
    intuition congruence.
Qed.

(** [fails_evidence] is [False] exactly for the sets that contain everyone
    known to have the trait and no one known not to have it. *)
Lemma fails_evidence_false (people : dict Person) (have_trait : gset string) :
  fails_evidence people (list_to_set (keys people)) have_trait = false ↔
  ∀ person entry, dict_get person people = Some entry →
    (trait entry = Some true → person ∈ have_trait) ∧
    (trait entry = Some false → person ∉ have_trait).
Proof.
  unfold fails_evidence. rewrite <- not_true_iff_false, existsb_exists. split.
  - intros Hno person entry Hget. apply evidence_agrees.
    apply not_true_iff_false. intros Hbad. apply Hno. exists person. split.
    + apply list_elem_of_In, elem_of_elements, dict_get_names. eauto.
    + rewrite Hget. exact Hbad.
  - intros Hall (person & _ & Hbad).
    destruct (dict_get person people) as [entry|] eqn:Hget; [|discriminate].
    apply (Hall person entry) in Hget. apply evidence_agrees in Hget.
    congruence.
Qed.

Lemma elem_of_hypotheses (people : dict Person)
    (have_trait one_gene two_genes : gset string) :
  (have_trait, one_gene, two_genes) ∈ hypotheses people ↔
  have_trait ⊆ list_to_set (keys people) ∧
  fails_evidence people (list_to_set (keys people)) have_trait = false ∧
  one_gene ⊆ list_to_set (keys people) ∧
  two_genes ⊆ list_to_set (keys people) ∖ one_gene.
Proof.
  unfold hypotheses. cbv zeta. rewrite elem_of_flat_map. split.
  - intros (ht & Hin & Hht). apply elem_of_powerset in Hht.
    destruct (fails_evidence _ _ ht) eqn:Hfail; [apply elem_of_nil in Hin as []|].
    apply elem_of_flat_map in Hin as (og & Hin & Hog).
    apply elem_of_powerset in Hog.
    apply elem_of_map in Hin as (tg & [= -> -> ->] & Htg).
    apply elem_of_powerset in Htg. auto.
  - intros (Hht & Hfail & Hog & Htg). exists have_trait.
    split; [|apply elem_of_powerset; exact Hht]. rewrite Hfail.
    apply elem_of_flat_map. exists one_gene.
    split; [|apply elem_of_powerset; exact Hog].
    apply elem_of_map. exists two_genes.
    split; [reflexivity | apply elem_of_powerset; exact Htg].
Qed.

Lemma NoDup_hypotheses (people : dict Person) : NoDup (hypotheses people).
Proof.
  unfold hypotheses. cbv zeta. apply NoDup_flat_map.
  - intros ht1 ht2 [[ht og] tg] _ _ H1 H2.
    destruct (fails_evidence _ _ ht1); [apply elem_of_nil in H1 as []|].
    destruct (fails_evidence _ _ ht2); [apply elem_of_nil in H2 as []|].
    apply elem_of_flat_map in H1 as (? & H1 & _).
    apply elem_of_flat_map in H2 as (? & H2 & _).
    apply elem_of_map in H1 as (? & [= -> _ _] & _).
    apply elem_of_map in H2 as (? & [= -> _ _] & _). reflexivity.
  - intros ht _. destruct (fails_evidence _ _ ht); [constructor|].
    apply NoDup_flat_map.
    + intros og1 og2 [[ht' og] tg] _ _ H1 H2.
      apply elem_of_map in H1 as (? & [= _ -> _] & _).
      apply elem_of_map in H2 as (? & [= _ -> _] & _). reflexivity.
    + intros og _. apply NoDup_map_on; [|apply NoDup_powerset].
      intros ? ? _ _ [=]. assumption.
    + apply NoDup_powerset.
  - apply NoDup_powerset.
Qed.

Section MainLoop.
Context {T : Type} `{Arith T}.

(** The nested loops of [main] run the loop body over [hypotheses], in
    order. *)
Lemma main_loop_hypotheses (people : dict Person) :
  main_loop people =
  fold_left (accumulate people) (hypotheses people)
    (initial_probabilities people).
Proof.
  unfold main_loop, hypotheses. cbv zeta. rewrite fold_left_flat_map.
  apply fold_left_ext. intros probabilities have_trait.
  destruct (fails_evidence _ _ have_trait); [reflexivity|].
  rewrite fold_left_flat_map. apply fold_left_ext.
  intros probabilities' one_gene. rewrite fold_left_map. reflexivity.
Qed.

(** C2: the loop body of [main] (evaluate [joint_probability], then
    [update]) runs over the list [hypotheses people]; that list has no
    repetition; and it holds exactly the triples
    [(have_trait, one_gene, two_genes)] where [have_trait] is a set of names
    that contains every person with observed trait true and no person with
    observed trait false, and [one_gene] and [two_genes] are disjoint sets of
    names.  A person in neither gene set is given zero copies. *)
Theorem main_enumerates_consistent_hypotheses (people : dict Person) :
  let names : gset string := list_to_set (keys people) in
  main_loop people =
    fold_left (accumulate people) (hypotheses people)
      (initial_probabilities people) ∧
  NoDup (hypotheses people) ∧
  (∀ have_trait one_gene two_genes,
     (have_trait, one_gene, two_genes) ∈ hypotheses people ↔
     have_trait ⊆ names ∧
     (∀ person entry, dict_get person people = Some entry →
        (trait entry = Some true → person ∈ have_trait) ∧
        (trait entry = Some false → person ∉ have_trait)) ∧
     one_gene ⊆ names ∧ two_genes ⊆ names ∧ one_gene ## two_genes) ∧
  (∀ one_gene two_genes person,
     person ∉ one_gene → person ∉ two_genes →
     gene_count (Some person) one_gene two_genes = 0%Z).
Proof.
  intros names. split; [apply main_loop_hypotheses|].
  split; [apply NoDup_hypotheses|].
  split; [|intros; apply gene_count_zero; assumption].
  intros have_trait one_gene two_genes.
  rewrite elem_of_hypotheses, fails_evidence_false. fold names.
  assert (two_genes ⊆ names ∖ one_gene ↔
          two_genes ⊆ names ∧ one_gene ## two_genes) as -> by set_solver.
  tauto.
Qed.

End MainLoop.

(** ** What [load_data] guarantees *)

Lemma or_None_nonempty (s : string) : or_None s ≠ Some EmptyString.
Proof. destruct s; cbn; congruence. Qed.

Lemma elem_of_dict_set {V} (k k' : string) (v v' : V) (d : dict V) :
  (k, v) ∈ dict_set k' v' d → (k, v) = (k', v') ∨ (k, v) ∈ d.
Proof.
  induction d as [|[k0 v0] d IH]; cbn.
  - rewrite list_elem_of_singleton. auto.
  - destruct (String.eqb k' k0); rewrite !elem_of_cons; intuition.
Qed.

Lemma load_data_parents_recorded (rows : list Row) :
  parents_recorded (load_data rows).
Proof.
  unfold load_data.
  assert (Hinit : parents_recorded []) by (intros ? ? Hin; inversion Hin).
  revert Hinit. generalize (@nil (string * Person)).
  induction rows as [|row rows IH]; intros data Hdata; [exact Hdata|].
  cbn [fold_left]. apply IH. intros person entry Hin.
  apply elem_of_dict_set in Hin as [[= -> ->] | Hin]; [|eauto].
  cbn. split; apply or_None_nonempty.
Qed.

(** The keys of a dictionary are distinct, and a key is looked up to the
    entry it is stored with: iterating over the entries of [people] is
    iterating over its keys [person] and reading [people[person]]. *)
Lemma elem_of_keys_dict_set {V} (k k' : string) (v' : V) (d : dict V) :
  k ∈ keys (dict_set k' v' d) → k = k' ∨ k ∈ keys d.
Proof.
  induction d as [|[k0 v0] d IH]; cbn.
  - rewrite list_elem_of_singleton. auto.
  - destruct (String.eqb_spec k' k0) as [-> | Hne]; cbn;
      rewrite !elem_of_cons; intuition.
Qed.

Lemma NoDup_keys_dict_set {V} (k : string) (v : V) (d : dict V) :
  NoDup (keys d) → NoDup (keys (dict_set k v d)).
Proof.
  induction d as [|[k0 v0] d IH]; cbn; intros Hnd.
  - apply NoDup_singleton.
  - apply NoDup_cons in Hnd as [Hk0 Hnd].
    destruct (String.eqb_spec k k0) as [-> | Hne]; cbn; apply NoDup_cons.
    + auto.
    + split; [|auto]. intros Hin.
      apply elem_of_keys_dict_set in Hin as [-> | Hin]; auto.
Qed.

Lemma NoDup_keys_load_data (rows : list Row) : NoDup (keys (load_data rows)).
Proof.
  unfold load_data.
  assert (Hinit : NoDup (keys (@nil (string * Person)))) by constructor.
  revert Hinit. generalize (@nil (string * Person)).
  induction rows as [|row rows IH]; intros data Hdata; [exact Hdata|].
  cbn [fold_left]. apply IH, NoDup_keys_dict_set, Hdata.
Qed.

Lemma dict_get_elem_of {V} (d : dict V) (k : string) (v : V) :
  NoDup (keys d) → (k, v) ∈ d → dict_get k d = Some v.
Proof.
  induction d as [|[k0 v0] d IH]; cbn; intros Hnd Hin.
  - apply elem_of_nil in Hin as [].
  - apply NoDup_cons in Hnd as [Hk0 Hnd].
    apply elem_of_cons in Hin as [[= -> ->] | Hin].
    + rewrite String.eqb_refl. reflexivity.
    + destruct (String.eqb_spec k k0) as [-> | Hne]; [|auto].
      exfalso. apply Hk0. apply elem_of_map. exists (k0, v). auto.
Qed.

(** ** [joint_probability] as a product *)

Section JointProbabilityTerms.
Context {T : Type} `{Arith T}.
Local Open Scope num_scope.




End JointProbabilityTerms.

Section JointProbabilityExact.
Local Open Scope Qc_scope.



Lemma fold_left_mul_acc {A} (f : A → Qc) (l : list A) (a : Qc) :
  fold_left (fun acc x => acc * f x) l a =
  a * fold_left (fun acc x => acc * f x) l 1.
Proof.
  revert a. induction l as [|x l IH]; intros a; cbn [fold_left]; [ring|].
  rewrite IH, (IH (1 * f x)). ring.
Qed.

Lemma fold_left_product (f : string * Person → Qc) (people : dict Person) (a : Qc) :
  fold_left (fun acc x => acc * f x) people a = a * product (map f people).
Proof.
  unfold product. rewrite fold_left_map. exact_ops. apply fold_left_mul_acc.
Qed.


End JointProbabilityExact.

(** ** The accumulated masses *)

Section Accumulate.
Context {T : Type} `{Arith T}.

Lemma dict_get_map {V W} (f : string → V → W) (d : dict V) (k : string) :
  dict_get k (map (fun '(q, v) => (q, f q v)) d) = option_map (f k) (dict_get k d).
Proof.
  induction d as [|[q v] d IH]; [reflexivity|].
  cbn. destruct (String.eqb_spec k q) as [-> | Hne]; [reflexivity | exact IH].
Qed.

(** The loop of [main] treats every entry of [probabilities] on its own. *)
Lemma fold_accumulate (people : dict Person)
    (hs : list (gset string * gset string * gset string))
    (probabilities : dict (Marginal T)) :
  fold_left (accumulate people) hs probabilities =
  map (fun '(q, m) => (q, fold_left (accumulate_person people q) hs m))
      probabilities.
Proof.
  revert probabilities. induction hs as [|[[ht og] tg] hs IH]; intros probs.
  - cbn. rewrite <- (map_id probs) at 1. apply map_ext. intros [? ?]. reflexivity.
  - cbn [fold_left]. rewrite IH. unfold accumulate at 1, update.
    rewrite map_map. apply map_ext. intros [q m]. reflexivity.
Qed.

Lemma dict_get_initial (people : dict Person) (person : string) (entry : Person) :
  dict_get person people = Some entry →
  dict_get person (initial_probabilities (T:=T) people) =
  Some {| m_gene := {| g2 := lit 0; g1 := lit 0; g0 := lit 0 |};
          m_trait := {| tTrue := lit 0; tFalse := lit 0 |} |}.
Proof.
  intros Hget. unfold initial_probabilities.
  rewrite (dict_get_map (fun _ _ => _)), Hget. reflexivity.
Qed.

(** The bucket of the trait value that no hypothesis gives a person is
    never added to. *)
Lemma other_trait_bucket (people : dict Person) (person : string) (b : bool)
    (hs : list (gset string * gset string * gset string)) (m : Marginal T) :
  (∀ ht og tg, (ht, og, tg) ∈ hs → mem (Some person) ht = b) →
  trait_get (negb b) (m_trait (fold_left (accumulate_person people person) hs m)) =
  trait_get (negb b) (m_trait m).
Proof.
  revert m. induction hs as [|[[ht og] tg] hs IH]; intros m Hall; [reflexivity|].
  cbn [fold_left]. rewrite IH.
  - unfold accumulate_person, update_person. cbn [m_trait].
    rewrite (Hall ht og tg) by left. destruct b; reflexivity.
  - intros ht' og' tg' Hin. apply (Hall ht' og' tg'). right. exact Hin.
Qed.

End Accumulate.

(** ** Known traits, in exact arithmetic *)

Section KnownTrait.
Local Open Scope Qc_scope.

(** One pass adds the joint probability to each of the two totals of a
    person. *)
Lemma accumulate_person_totals (people : dict Person) (q : string)
    (m : Marginal Qc) (ht og tg : gset string) :
  let m' := accumulate_person people q m (ht, og, tg) in
  gene_total (m_gene m') =
    gene_total (m_gene m) + joint_probability people og tg ht ∧
  trait_total (m_trait m') =
    trait_total (m_trait m) + joint_probability people og tg ht.
Proof.
  cbv zeta. unfold accumulate_person, update_person. cbn [m_gene m_trait].
  split.
  - destruct (gene_count_cases (Some q) og tg) as [E|[E|E]]; rewrite E;
      unfold gene_total; cbn; ring.
  - destruct (mem (Some q) ht); unfold trait_total; cbn; ring.
Qed.

Lemma Qc_mul_pos (x y : Qc) : 0 < x → 0 < y → 0 < x * y.
Proof.
  intros Hx Hy. rewrite <- (Qcmult_0_l y). apply Qcmult_lt_compat_r; assumption.
Qed.

Lemma Qc_add_pos (x y : Qc) : 0 < x → 0 <= y → 0 < x + y.
Proof.
  intros Hx Hy. apply Qclt_le_trans with x; [exact Hx|].
  rewrite <- (Qcplus_0_r x) at 1. apply Qcplus_le_compat; [apply Qcle_refl|exact Hy].
Qed.

(** Every factor of [joint_probability] is positive: the tables hold
    positive numbers and the transmission probabilities lie strictly
    between 0 and 1. *)
Lemma person_prob_pos (one_gene two_genes have_trait : gset string)
    (person : string) (entry : Person) :
  0 < person_prob one_gene two_genes have_trait person entry.
Proof.
  unfold person_prob. cbv zeta.
  destruct (gene_count_cases (Some person) one_gene two_genes) as [E|[E|E]];
    rewrite E;
    destruct (gene_count_cases (father entry) one_gene two_genes) as [F|[F|F]];
    rewrite F;
    destruct (gene_count_cases (mother entry) one_gene two_genes) as [M|[M|M]];
    rewrite M;
    destruct (mem (Some person) have_trait);
    destruct (falsy (father entry) && falsy (mother entry));
    vm_compute; reflexivity.
Qed.

Lemma joint_probability_pos (people : dict Person)
    (one_gene two_genes have_trait : gset string) :
  0 < joint_probability people one_gene two_genes have_trait.
Proof.
  unfold joint_probability.
  assert (Hone : 0 < @lit Qc _ 1) by reflexivity.
  revert Hone. generalize (@lit Qc _ 1).
  induction people as [|[person entry] rest IH]; intros a Ha; [exact Ha|].
  cbn [fold_left]. apply IH. apply Qc_mul_pos; [exact Ha|].
  apply person_prob_pos.
Qed.

(** So after any number of passes all totals have grown by one and the same
    amount, which is positive as soon as there was a pass. *)
Lemma accumulate_totals (people : dict Person)
    (hs : list (gset string * gset string * gset string)) :
  ∃ S : Qc, 0 <= S ∧ (hs ≠ [] → 0 < S) ∧ ∀ q m,
    let m' := fold_left (accumulate_person people q) hs m in
    gene_total (m_gene m') = gene_total (m_gene m) + S ∧
    trait_total (m_trait m') = trait_total (m_trait m) + S.
Proof.
  induction hs as [|[[ht og] tg] hs (S & HS0 & _ & IH)].
  - exists 0. split; [apply Qcle_refl|]. split; [congruence|].
    intros q m. cbn [fold_left]. split; ring.
  - pose proof (joint_probability_pos people og tg ht) as Hp.
    assert (HS : 0 < joint_probability people og tg ht + S)
      by (apply Qc_add_pos; assumption).
    exists (joint_probability people og tg ht + S).
    split; [apply Qclt_le_weak; exact HS|]. split; [intros _; exact HS|].
    intros q m. cbn [fold_left]. cbv zeta.
    destruct (IH q (accumulate_person people q m (ht, og, tg))) as [Hg Ht].
    destruct (accumulate_person_totals people q m ht og tg) as [Hg1 Ht1].
    cbv zeta in Hg, Ht. rewrite Hg, Ht, Hg1, Ht1. split; ring.
Qed.

(** There is always a hypothesis to go through: the people known to have
    the trait, nobody with a copy of the gene. *)
Lemma hypotheses_nonempty (people : dict Person) : hypotheses people ≠ [].
Proof.
  set (ht := filter (λ person, dict_get person people ≫= trait = Some true)
               (list_to_set (keys people) : gset string)).
  assert (Hin : (ht, ∅, ∅) ∈ hypotheses people).
  { apply elem_of_hypotheses. split; [|split; [|split]].
    - intros person Hp. apply elem_of_filter in Hp as [_ Hp]. exact Hp.
    - apply fails_evidence_false. intros person entry Hget. split.
      + intros Ht. apply elem_of_filter. split.
        * rewrite Hget. exact Ht.
        * apply dict_get_names. eauto.
      + intros Ht Hp. apply elem_of_filter in Hp as [Hp _].
        rewrite Hget in Hp. cbn in Hp. congruence.
    - apply empty_subseteq.
    - apply empty_subseteq. }
  intros E. rewrite E in Hin. apply elem_of_nil in Hin. exact Hin.
Qed.

(** Every hypothesis of [main] agrees with a known trait. *)
Lemma hypotheses_agree (people : dict Person) (person : string)
    (entry : Person) (b : bool) (ht og tg : gset string) :
  dict_get person people = Some entry → trait entry = Some b →
  (ht, og, tg) ∈ hypotheses people → mem (Some person) ht = b.
Proof.
  intros Hget Hb Hin. apply elem_of_hypotheses in Hin as (_ & Hfail & _).
  rewrite fails_evidence_false in Hfail.
  destruct (Hfail person entry Hget) as [Htrue Hfalse].
  destruct b.
  - apply mem_Some. auto.
  - apply not_true_iff_false. rewrite mem_Some. auto.
Qed.

Lemma dict_get_In {V} (d : dict V) (k : string) (v : V) :
  dict_get k d = Some v → In (k, v) d.
Proof.
  induction d as [|[k' v'] d IH]; [discriminate|]. cbn.
  destruct (String.eqb_spec k k') as [-> | Hne].
  - intros [= ->]. left. reflexivity.
  - intros Hget. right. apply IH. exact Hget.
Qed.

(** After the loops of [main] every total of the table is one and the same
    positive number: the sum of the joint probabilities of all hypotheses. *)
Lemma main_loop_totals (people : dict Person) :
  ∃ S : Qc, 0 < S ∧ ∀ q mq,
    In (q, mq) (main_loop people) →
    gene_total (m_gene mq) = S ∧ trait_total (m_trait mq) = S.
Proof.
  destruct (accumulate_totals people (hypotheses people)) as (S & _ & HS & Htot).
  exists S. split; [apply HS, hypotheses_nonempty|].
  intros q mq Hin.
  rewrite main_loop_hypotheses, fold_accumulate in Hin.
  apply in_map_iff in Hin as ([q' m0] & [= -> <-] & Hin).
  unfold initial_probabilities in Hin.
  apply in_map_iff in Hin as ([q'' e] & [= -> <-] & _).
  destruct (Htot q {| m_gene := {| g2 := lit 0; g1 := lit 0; g0 := lit 0 |};
                      m_trait := {| tTrue := lit 0; tFalse := lit 0 |} |})
    as [Hg Ht].
  cbv zeta in Hg, Ht. exact_ops. rewrite Hg, Ht.
  unfold gene_total, trait_total. cbn. split; ring.
Qed.

(** In exact arithmetic [normalize] finds no zero total after the loops:
    [main] returns, whatever the pedigree. *)
Lemma main_returns (people : dict Person) :
  ∃ probabilities' : dict (Marginal Qc), main people = Returned probabilities'.
Proof.
  destruct (main_loop_totals people) as (S & HS & Htot).
  apply normalize_returns. intros q mq Hin.
  destruct (Htot q mq Hin) as [-> ->].
  split; apply exact_is_zero_false, not_eq_sym, Qclt_not_eq, HS.
Qed.

(** What the loops accumulate for a person whose trait is known: nothing
    for the other value, a positive mass for the observed one. *)
Lemma known_trait_mass (people : dict Person) (person : string)
    (entry : Person) (b : bool) :
  dict_get person people = Some entry →
  trait entry = Some b →
  ∃ mass : Marginal Qc,
    dict_get person (main_loop people) = Some mass ∧
    trait_get (negb b) (m_trait mass) = 0 ∧
    trait_total (m_trait mass) = trait_get b (m_trait mass) ∧
    0 < trait_get b (m_trait mass).
Proof.
  intros Hget Hb.
  pose (zero := {| m_gene := {| g2 := Q2Qc 0; g1 := Q2Qc 0; g0 := Q2Qc 0 |};
                   m_trait := {| tTrue := Q2Qc 0; tFalse := Q2Qc 0 |} |}).
  set (hs := hypotheses people).
  set (mass := fold_left (accumulate_person people person) hs zero).
  assert (Hmass : dict_get person (main_loop people) = Some mass).
  { rewrite main_loop_hypotheses, fold_accumulate.
    rewrite (dict_get_map (fun q m => fold_left _ hs m)).
    rewrite (dict_get_initial _ _ _ Hget). reflexivity. }
  assert (Hother : trait_get (negb b) (m_trait mass) = 0).
  { unfold mass. rewrite (other_trait_bucket people person b hs zero).
    - destruct b; reflexivity.
    - intros ht og tg Hin. eapply hypotheses_agree; eassumption. }
  assert (Ht : trait_total (m_trait mass) = trait_get b (m_trait mass)).
  { unfold trait_total. exact_ops. destruct b; cbn in Hother |- *;
      rewrite Hother; ring. }
  exists mass. split; [exact Hmass|]. split; [exact Hother|].
  split; [exact Ht|].
  destruct (main_loop_totals people) as (S & HS & Htot).
  destruct (Htot person mass (dict_get_In _ _ _ Hmass)) as [_ HSt].
  rewrite <- Ht, HSt. exact HS.
Qed.

(** In exact arithmetic: for a person whose trait is known, the loops of [main] leave the
    bucket of the other trait value at 0; and when the mass accumulated for
    the observed value is not zero (in exact arithmetic it is positive),
    [main] returns and the person's trait distribution gives 1 to the
    observed value and 0 to the other. *)
Lemma known_trait_exact (people : dict Person) (person : string)
    (entry : Person) (b : bool) :
  dict_get person people = Some entry →
  trait entry = Some b →
  ∃ mass : Marginal Qc,
    dict_get person (main_loop people) = Some mass ∧
    trait_get (negb b) (m_trait mass) = 0 ∧
    0 < trait_get b (m_trait mass) ∧
    (trait_get b (m_trait mass) ≠ 0 →
     ∃ probabilities' m',
       main people = Returned probabilities' ∧
       dict_get person probabilities' = Some m' ∧
       trait_get b (m_trait m') = 1 ∧
       trait_get (negb b) (m_trait m') = 0).
Proof.
  intros Hget Hb.
  destruct (known_trait_mass people person entry b Hget Hb)
    as (mass & Hmass & Hother & Ht & Hpos).
  exists mass. split; [exact Hmass|]. split; [exact Hother|].
  split; [exact Hpos|]. intros Hnz.
  destruct (main_returns people) as [probabilities' Hret].
  destruct (normalize_Returned_get _ _ _ _ Hret Hmass) as (g & t & _ & Et & Hget').
  apply exact_normalize_trait in Et as [Htz ->].
  exists probabilities'. eexists. split; [exact Hret|]. split; [exact Hget'|].
  cbn [m_trait]. rewrite Ht in *.
  destruct b; cbn in Hother, Hnz, Htz |- *; rewrite ?Hother; split;
    field; assumption.
Qed.

End KnownTrait.

(** The same for any arithmetic, up to the last division: the bucket of the
    other value is still [0] after the loops, and when [main] returns the
    two trait values are the masses times [1/total]. *)
Section KnownTraitAny.
Context {T : Type} `{Arith T}.

Lemma known_trait_any (people : dict Person) (person : string)
    (entry : Person) (b : bool) :
  dict_get person people = Some entry →
  trait entry = Some b →
  ∃ mass : Marginal T,
    dict_get person (main_loop people) = Some mass ∧
    trait_get (negb b) (m_trait mass) = lit 0 ∧
    ∀ probabilities', main people = Returned probabilities' →
      ∃ m', dict_get person probabilities' = Some m' ∧
        trait_get b (m_trait m') =
          mul (trait_get b (m_trait mass))
              (quot (lit 1) (trait_total (m_trait mass))) ∧
        trait_get (negb b) (m_trait m') =
          mul (lit 0) (quot (lit 1) (trait_total (m_trait mass))).
Proof.
  intros Hget Hb.
  pose (zero := {| m_gene := {| g2 := lit 0; g1 := lit 0; g0 := lit 0 |};
                   m_trait := {| tTrue := lit 0; tFalse := lit 0 |} |}
                : Marginal T).
  set (hs := hypotheses people).
  set (mass := fold_left (accumulate_person people person) hs zero).
  assert (Hmass : dict_get person (main_loop people) = Some mass).
  { rewrite main_loop_hypotheses, fold_accumulate.
    rewrite (dict_get_map (fun q m => fold_left _ hs m)).
    rewrite (dict_get_initial _ _ _ Hget). reflexivity. }
  assert (Hother : trait_get (negb b) (m_trait mass) = lit 0).
  { unfold mass. rewrite (other_trait_bucket people person b hs zero).
    - destruct b; reflexivity.
    - intros ht og tg Hin. eapply hypotheses_agree; eassumption. }
  exists mass. split; [exact Hmass|]. split; [exact Hother|].
  intros probabilities' Hret.
  destruct (normalize_Returned_get _ _ _ _ Hret Hmass) as (g & t & _ & Et & Hget').
  apply normalize_trait_Some in Et as [_ ->].
  eexists. split; [exact Hget'|]. cbn [m_trait]. rewrite <- Hother.
  destruct b; split; reflexivity.
Qed.

End KnownTraitAny.

(** In binary64 zero times a finite number is a zero. *)
Lemma binary64_zero_mul (x : float) :
  Binary64.to_Q x ≠ None → Binary64.to_Q (PrimFloat.mul 0 x) = Some 0%Q.
Proof.
  unfold Binary64.to_Q. rewrite FloatAxioms.mul_spec.
  replace (Prim2SF 0%float) with (S754_zero false) by (vm_compute; reflexivity).
  destruct (Prim2SF x); cbn; congruence.
Qed.

(** C3 (as amended): for a person whose trait is known, the loops of [main]
    never add to the bucket of the other trait value, which is 0 after them;
    when [main] returns, the person's trait distribution is the observed
    mass times [1/total] on the observed value and 0 times [1/total] on the
    other, with floats as with exact numbers.  In exact arithmetic the
    observed mass is positive, [main] returns, and the two values are 1 and
    0.  In binary64 the other value is a zero whenever [1/total] is finite;
    the observed value is the rounded product of the mass and [1/total],
    which need not be 1.0. *)
Theorem known_trait_is_certain (people : dict Person) (person : string)
    (entry : Person) (b : bool) :
  dict_get person people = Some entry →
  trait entry = Some b →
  (∀ T (A : Arith T), ∃ mass : Marginal T,
     dict_get person (main_loop people) = Some mass ∧
     trait_get (negb b) (m_trait mass) = lit 0 ∧
     ∀ probabilities', main people = Returned probabilities' →
       ∃ m', dict_get person probabilities' = Some m' ∧
         trait_get b (m_trait m') =
           mul (trait_get b (m_trait mass))
               (quot (lit 1) (trait_total (m_trait mass))) ∧
         trait_get (negb b) (m_trait m') =
           mul (lit 0) (quot (lit 1) (trait_total (m_trait mass)))) ∧
  (∃ mass : Marginal Qc,
     dict_get person (main_loop people) = Some mass ∧
     trait_get (negb b) (m_trait mass) = Q2Qc 0 ∧
     (Q2Qc 0 < trait_get b (m_trait mass))%Qc ∧
     (trait_get b (m_trait mass) ≠ Q2Qc 0 →
      ∃ probabilities' m',
        main people = Returned probabilities' ∧
        dict_get person probabilities' = Some m' ∧
        trait_get b (m_trait m') = Q2Qc 1 ∧
        trait_get (negb b) (m_trait m') = Q2Qc 0)) ∧
  (∀ (mass : Marginal float) probabilities' m',
     dict_get person (main_loop people) = Some mass →
     main people = Returned probabilities' →
     dict_get person probabilities' = Some m' →
     exact_value (quot (lit 1) (trait_total (m_trait mass))) ≠ None →
     exact_value (trait_get (negb b) (m_trait m')) = Some 0%Q).
Proof.
  intros Hget Hb. split; [|split].
  - intros T A. exact (known_trait_any people person entry b Hget Hb).
  - exact (known_trait_exact people person entry b Hget Hb).
  - intros mass probabilities' m' Hmass Hret Hget' Hfinite.
    destruct (known_trait_any (T:=float) people person entry b Hget Hb)
      as (mass0 & Hmass0 & _ & Hfinal).
    assert (mass0 = mass) as -> by congruence.
    destruct (Hfinal probabilities' Hret) as (m0 & Hget0 & _ & Hzero).
    assert (m0 = m') as -> by congruence.
    rewrite Hzero. apply binary64_zero_mul. exact Hfinite.
Qed.

(** ** The single-person scenario *)

(** C5 (as amended): for the pedigree of one person without parents and
    with known trait true, the loops of [main] accumulate the gene masses
    0.96*0.01 = 0.0096 (no copy), 0.03*0.56 = 0.0168 (one copy) and
    0.01*0.65 = 0.0065 (two copies), which sum to 0.0329; [main] then prints
    the gene distribution 0: 0.2918, 1: 0.5106, 2: 0.1976 and the trait
    distribution True: 1.0000, False: 0.0000; the printed numbers are the
    same in exact arithmetic and in binary64. *)
Theorem alice_scenario :
  (∃ mass : Marginal Qc,
     main_loop alice = [("Alice", mass)] ∧
     g0 (m_gene mass) = (Q2Qc 0.96 * Q2Qc 0.01)%Qc ∧
     g0 (m_gene mass) = Q2Qc 0.0096 ∧
     g1 (m_gene mass) = (Q2Qc 0.03 * Q2Qc 0.56)%Qc ∧
     g1 (m_gene mass) = Q2Qc 0.0168 ∧
     g2 (m_gene mass) = (Q2Qc 0.01 * Q2Qc 0.65)%Qc ∧
     g2 (m_gene mass) = Q2Qc 0.0065 ∧
     gene_total (m_gene mass) = Q2Qc 0.0329) ∧
  print_table (@main_loop float _ alice) =
    [("Alice", [Some 65; Some 168; Some 96; Some 329; Some 0])]%Z ∧
  printed (@main Qc _ alice) =
    Some [("Alice", [Some 1976; Some 5106; Some 2918; Some 10000; Some 0])]%Z ∧
  printed (@main float _ alice) =
    Some [("Alice", [Some 1976; Some 5106; Some 2918; Some 10000; Some 0])]%Z.
Proof.
  split; [|repeat split; vm_compute; reflexivity].
  eexists. split; [vm_compute; reflexivity|].
  cbn [m_gene g0 g1 g2]. repeat split; qc_closed.
Qed.

(** The numbers the specification expects for this scenario are not the
    ones [main] prints: 0.2917 and 0.5107 are each off by one in the last
    place. *)
Lemma alice_scenario_counterexample :
  printed (@main Qc _ alice) ≠
    Some [("Alice", [Some 1976; Some 5107; Some 2917; Some 10000; Some 0])]%Z ∧
  printed (@main float _ alice) ≠
    Some [("Alice", [Some 1976; Some 5107; Some 2917; Some 10000; Some 0])]%Z.
Proof. split; vm_compute; discriminate. Qed.

(** ** Examples of the other properties *)

(** A table with a zero total: [normalize] raises, and the store is the
    table as it was, without any NaN. *)
Lemma normalize_zero_total_counterexample :
  @normalize float _ empty_then_full = ZeroDivisionError empty_then_full ∧
  ¬ ∃ probabilities', @normalize float _ empty_then_full = Returned probabilities'.
Proof.
  split; [vm_compute; reflexivity|]. intros [probabilities' Hn].
  vm_compute in Hn. discriminate.
Qed.

(** A person with strictly positive totals next to one with a zero total:
    [normalize] raises at the first person and the second one's
    distributions still sum to 4.  And a table of floats whose gene total
    overflows: [normalize] returns, with a gene distribution of zeros. *)
Lemma normalize_sums_to_one_counterexample :
  (∃ m m' : Marginal Qc,
     dict_get "B" empty_then_full = Some m ∧
     (Q2Qc 0 < gene_total (m_gene m))%Qc ∧
     (Q2Qc 0 < trait_total (m_trait m))%Qc ∧
     normalize empty_then_full = ZeroDivisionError empty_then_full ∧
     dict_get "B" (store_of (normalize empty_then_full)) = Some m' ∧
     gene_total (m_gene m') = Q2Qc 4 ∧
     trait_total (m_trait m') = Q2Qc 4) ∧
  (∃ m m' : Marginal float,
     dict_get "A" overflow_table = Some m ∧
     PrimFloat.ltb 0 (gene_total (m_gene m)) = true ∧
     PrimFloat.ltb 0 (trait_total (m_trait m)) = true ∧
     normalize overflow_table = Returned [("A", m')] ∧
     m_gene m' = {| g2 := 0%float; g1 := 0%float; g0 := 0%float |} ∧
     gene_total (m_gene m') = 0%float).
Proof.
  split.
  - eexists _, _. split; [vm_compute; reflexivity|].
    split; [vm_compute; reflexivity|]. split; [vm_compute; reflexivity|].
    split; [vm_compute; reflexivity|]. split; [vm_compute; reflexivity|].
    split; qc_closed.
  - eexists _, _. split; [vm_compute; reflexivity|].
    split; [vm_compute; reflexivity|]. split; [vm_compute; reflexivity|].
    split; [vm_compute; reflexivity|]. split; vm_compute; reflexivity.
Qed.

(** In binary64 a known trait need not come out as 1.0: the mother of
    [trio] is known to have the trait, her accumulated mass is not zero,
    [main] returns, and her probability of having the trait is the float
    just below 1. *)
Lemma known_trait_is_certain_counterexample :
  ∃ (entry : Person) (mass : Marginal float) probabilities' m',
    dict_get "M" trio = Some entry ∧
    trait entry = Some true ∧
    dict_get "M" (main_loop trio) = Some mass ∧
    is_zero (tTrue (m_trait mass)) = false ∧
    main trio = Returned probabilities' ∧
    dict_get "M" probabilities' = Some m' ∧
    tTrue (m_trait m') = 0.99999999999999989%float ∧
    PrimFloat.eqb (tTrue (m_trait m')) 1 = false.
Proof.
  eexists _, _, _, _. split; [vm_compute; reflexivity|].
  split; [reflexivity|]. split; [vm_compute; reflexivity|].
  split; [vm_compute; reflexivity|]. split; [vm_compute; reflexivity|].
  split; [vm_compute; reflexivity|]. split; vm_compute; reflexivity.
Qed.

Lemma normalize_zero_total_raises_witness :
  ∃ store, @normalize float _ empty_then_full = ZeroDivisionError store.
Proof.
  assert (Hz : is_zero (gene_total (T:=float)
                          {| g2 := lit 0; g1 := lit 0; g0 := lit 0 |}) = true)
    by (vm_compute; reflexivity).
  destruct (normalize_zero_total_raises (T:=float) empty_then_full "A"
              {| m_gene := {| g2 := lit 0; g1 := lit 0; g0 := lit 0 |};
                 m_trait := {| tTrue := lit 0; tFalse := lit 0 |} |}
              (or_introl eq_refl) (or_introl Hz))
    as (_ & _ & store & Hs & _).
  exists store. exact Hs.
Defined.

Lemma normalize_sums_to_one_witness :
  ∃ m' : Marginal Qc,
    dict_get "B" (store_of (normalize full_table)) = Some m' ∧
    gene_total (m_gene m') = Q2Qc 1 ∧ trait_total (m_trait m') = Q2Qc 1.
Proof.
  destruct (proj2 normalize_sums_to_one full_table) as [Hret Hsum].
  destruct Hret as [probabilities' Hn].
  { intros q mq [[= <- <-] | []]. split; intros E; discriminate E. }
  destruct (Hsum probabilities' "B" _ Hn eq_refl) as (m' & Hget & Hg & Ht & _).
  { reflexivity. }
  { reflexivity. }
  exists m'. rewrite Hn. cbn [store_of]. auto.
Defined.


Lemma known_trait_is_certain_witness :
  ∃ (probabilities' : dict (Marginal Qc)) m',
    main alice = Returned probabilities' ∧
    dict_get "Alice" probabilities' = Some m' ∧
    trait_get true (m_trait m') = Q2Qc 1 ∧
    trait_get false (m_trait m') = Q2Qc 0.
Proof.
  destruct (known_trait_is_certain alice "Alice"
              {| name := "Alice"; mother := None; father := None;
                 trait := Some true |} true eq_refl eq_refl)
    as (_ & (mass & _ & _ & Hpos & Hcertain) & _).
  apply Hcertain. apply not_eq_sym, Qclt_not_eq, Hpos.
Defined.

Lemma update_frame_witness :
  ∃ m' : Marginal float,
    dict_get "B" (update full_table {["B"]} ∅ ∅ (lit 0.5)) = Some m' ∧
    g1 (m_gene m') = 2.5%float ∧ g2 (m_gene m') = 1%float ∧
    g0 (m_gene m') = 1%float ∧
    tTrue (m_trait m') = 3%float ∧ tFalse (m_trait m') = 1.5%float.
Proof.
  destruct (update_frame (T:=float) full_table {["B"]} ∅ ∅ (lit 0.5) "B" _ eq_refl)
    as (_ & m' & Hget & H2 & H1 & H0 & Ht & Hf & _).
  exists m'. split; [exact Hget|].
  rewrite H2, H1, H0, Ht, Hf. repeat split; vm_compute; reflexivity.
Defined.

(** * Further properties of the program *)

(** ** [load_data] *)

Lemma dict_get_dict_set {V} (k k' : string) (v : V) (d : dict V) :
  dict_get k' (dict_set k v d) =
  if String.eqb k' k then Some v else dict_get k' d.
Proof.
  induction d as [|[k0 v0] d IH]; cbn.
  - destruct (String.eqb k' k); reflexivity.
  - destruct (String.eqb_spec k k0) as [-> | Hne]; cbn.
    + destruct (String.eqb k' k0); reflexivity.
    + rewrite IH. destruct (String.eqb_spec k' k0) as [-> | Hne'];
        [|reflexivity].
      destruct (String.eqb_spec k0 k) as [-> | _]; [contradiction|reflexivity].
Qed.

Lemma keys_dict_set {V} (k : string) (v : V) (d : dict V) :
  keys (dict_set k v d) =
  if decide (k ∈ keys d) then keys d else keys d ++ [k].
Proof.
  unfold keys. induction d as [|[k0 v0] d IH]; cbn.
  - rewrite decide_False by apply not_elem_of_nil. reflexivity.
  - destruct (String.eqb_spec k k0) as [-> | Hne]; cbn.
    + rewrite decide_True by left. reflexivity.
    + rewrite IH. destruct (decide (k ∈ map fst d)) as [Hin | Hout].
      * rewrite decide_True by (right; exact Hin). reflexivity.
      * rewrite decide_False; [reflexivity|].
        intros [Heq | Hin]%elem_of_cons; [contradiction | exact (Hout Hin)].
Qed.

(** Reading one more row is one dictionary assignment. *)
Lemma load_data_snoc (rows : list Row) (row : Row) :
  load_data (rows ++ [row]) =
  dict_set (row_name row) (person_of_row row) (load_data rows).
Proof. unfold load_data. rewrite fold_left_app. reflexivity. Qed.

(** X1: [load_data] answers a lookup by name with the data of the last row
    that carries the name, and with [KeyError] when no row does; a name keeps
    the position of its first row. *)
Theorem load_data_lookup (rows : list Row) :
  (∀ person,
     dict_get person (load_data rows) =
     person_of_row <$>
       find (fun row => String.eqb person (row_name row)) (rev rows)) ∧
  (∀ row,
     keys (load_data (rows ++ [row])) =
     if decide (row_name row ∈ keys (load_data rows))
     then keys (load_data rows)
     else keys (load_data rows) ++ [row_name row]).
Proof.
  split.
  - intros person. induction rows as [|row rows IH] using rev_ind;
      [reflexivity|].
    rewrite load_data_snoc, dict_get_dict_set, rev_app_distr. cbn.
    destruct (String.eqb person (row_name row)); [reflexivity | exact IH].
  - intros row. rewrite load_data_snoc. apply keys_dict_set.
Qed.

(** X2: in the dictionary [load_data] builds the names are distinct, they
    are the names of the rows, and every entry is the data of one row filed
    under that row's name: its ["name"] is its key and a parent is [None] or
    a non-empty string. *)
Theorem load_data_entries (rows : list Row) :
  NoDup (keys (load_data rows)) ∧
  (∀ person, person ∈ keys (load_data rows) ↔ person ∈ map row_name rows) ∧
  (∀ person entry, (person, entry) ∈ load_data rows →
     (∃ row, row ∈ rows ∧ entry = person_of_row row) ∧
     name entry = person ∧
     dict_get person (load_data rows) = Some entry ∧
     mother entry ≠ Some EmptyString ∧ father entry ≠ Some EmptyString).
Proof.
  split; [apply NoDup_keys_load_data|]. split.
  - intros person. induction rows as [|row rows IH] using rev_ind.
    + reflexivity.
    + rewrite load_data_snoc, keys_dict_set, map_app, elem_of_app. cbn.
      rewrite list_elem_of_singleton, <- IH.
      destruct (decide (row_name row ∈ keys (load_data rows))) as [Hin | Hout].
      * split; [auto|]. intros [? | ->]; assumption.
      * rewrite elem_of_app, list_elem_of_singleton. reflexivity.
  - intros person entry Hin.
    assert (Hrow : (∃ row, row ∈ rows ∧ entry = person_of_row row) ∧
                   name entry = person).
    { revert Hin. induction rows as [|row rows IH] using rev_ind.
      - intros Hin. apply elem_of_nil in Hin as [].
      - rewrite load_data_snoc. intros Hin.
        apply elem_of_dict_set in Hin as [[= -> ->] | Hin].
        + split; [|reflexivity]. exists row. split; [|reflexivity].
          apply elem_of_app. right. left.
        + destruct (IH Hin) as [(row' & Hrow' & ->) Hname].
          split; [|exact Hname]. exists row'. split; [|reflexivity].
          apply elem_of_app. left. exact Hrow'. }
    destruct Hrow as [Hrow Hname]. split; [exact Hrow|]. split; [exact Hname|].
    split.
    + apply dict_get_elem_of; [apply NoDup_keys_load_data | exact Hin].
    + exact (load_data_parents_recorded rows person entry Hin).
Qed.

(** ** [powerset]: how many subsets *)

Section Counting.
Context {A : Type}.

(** The subsequences of [x :: l] are those of [l], with and without [x]
    in front. *)
Lemma subsequences_cons (x : A) (l : list A) :
  NoDup (x :: l) →
  subsequences (x :: l) ≡ₚ map (cons x) (subsequences l) ++ subsequences l.
Proof.
  intros Hnd. pose proof Hnd as [Hx Hl]%NoDup_cons.
  apply NoDup_Permutation.
  - apply NoDup_subsequences. exact Hnd.
  - apply NoDup_app. split; [|split].
    + apply NoDup_map_on; [|apply NoDup_subsequences; exact Hl].
      intros ? ? _ _ [=]. assumption.
    + intros c Hc Hc'. apply elem_of_map in Hc as (c' & -> & _).
      apply elem_of_subsequences in Hc'. apply Hx.
      eapply sublist_elem_of; [exact Hc'|]. left.
    + apply NoDup_subsequences. exact Hl.
  - intros c. rewrite elem_of_app, elem_of_map, !elem_of_subsequences,
      sublist_cons_r.
    split.
    + intros [Hc | (c' & -> & Hc')]; [right; exact Hc|].
      left. exists c'. split; [reflexivity|].
      apply elem_of_subsequences. exact Hc'.
    + intros [(c' & -> & Hc') | Hc]; [|left; exact Hc].
      right. exists c'. split; [reflexivity|].
      apply elem_of_subsequences. exact Hc'.
Qed.

Lemma length_subsequences (l : list A) :
  NoDup l → length (subsequences l) = 2 ^ length l.
Proof.
  induction l as [|x l IH]; intros Hnd; [reflexivity|].
  rewrite (Permutation_length (subsequences_cons x l Hnd)).
  apply NoDup_cons in Hnd as [_ Hl].
  rewrite length_app, length_map, (IH Hl). cbn [length]. rewrite Nat.pow_succ_r'.
  lia.
Qed.

Lemma sum_list_with_ext_in {B} (f g : B → nat) (l : list B) :
  (∀ x, x ∈ l → f x = g x) → sum_list_with f l = sum_list_with g l.
Proof.
  induction l as [|x l IH]; intros Hfg; [reflexivity|]. cbn.
  rewrite (Hfg x) by left. rewrite IH; [reflexivity|].
  intros y Hy. apply Hfg. right. exact Hy.
Qed.

Lemma sum_list_with_map {B C} (f : C → nat) (g : B → C) (l : list B) :
  sum_list_with f (map g l) = sum_list_with (f ∘ g) l.
Proof. induction l as [|x l IH]; [reflexivity|]. cbn. rewrite IH. reflexivity. Qed.

Lemma sum_list_with_mul {B} (k : nat) (f : B → nat) (l : list B) :
  sum_list_with (λ x, k * f x) l = k * sum_list_with f l.
Proof. induction l as [|x l IH]; cbn; [lia|]. rewrite IH. lia. Qed.

Lemma length_flat_map {B C} (f : B → list C) (l : list B) :
  length (flat_map f l) = sum_list_with (length ∘ f) l.
Proof.
  induction l as [|x l IH]; [reflexivity|]. cbn.
  rewrite length_app, IH. reflexivity.
Qed.

(** Choosing a subsequence and then a subsequence of what is left can be
    done in [3 ^ length l] ways. *)
Lemma sum_subsequences_rest (l : list A) :
  NoDup l →
  sum_list_with (λ c, 2 ^ (length l - length c)) (subsequences l) =
  3 ^ length l.
Proof.
  induction l as [|x l IH]; intros Hnd; [reflexivity|].
  rewrite (subsequences_cons x l Hnd).
  apply NoDup_cons in Hnd as [_ Hl].
  rewrite sum_list_with_app, sum_list_with_map.
  rewrite (sum_list_with_ext_in _ (λ c, 2 ^ (length l - length c))
             (subsequences l)) by (intros c _; reflexivity).
  rewrite (sum_list_with_ext_in (λ c, 2 ^ (length (x :: l) - length c))
             (λ c, 2 * 2 ^ (length l - length c)) (subsequences l)).
  - rewrite sum_list_with_mul, (IH Hl). cbn [length].
    rewrite Nat.pow_succ_r'. lia.
  - intros c Hc. apply elem_of_subsequences, sublist_length in Hc.
    cbn [length]. replace (S (length l) - length c) with (S (length l - length c))
      by lia.
    apply Nat.pow_succ_r'.
Qed.

End Counting.

Lemma length_powerset (s : gset string) : length (powerset s) = 2 ^ size s.
Proof.
  unfold powerset. rewrite length_map, length_subsequences by apply NoDup_elements.
  reflexivity.
Qed.

(** X3: [powerset s] lists every subset of [s] exactly once and nothing
    else, so it has [2 ^ size s] elements; the empty set and [s] itself are
    among them. *)
Theorem powerset_subsets (s : gset string) :
  NoDup (powerset s) ∧
  (∀ x, x ∈ powerset s ↔ x ⊆ s) ∧
  length (powerset s) = 2 ^ size s ∧
  ∅ ∈ powerset s ∧ s ∈ powerset s.
Proof.
  split; [apply NoDup_powerset|]. split; [apply elem_of_powerset|].
  split; [apply length_powerset|].
  split; apply elem_of_powerset; set_solver.
Qed.

(** ** How many hypotheses [main] goes through *)

Section HypothesesCount.
Implicit Types (people : dict Person) (ht og tg : gset string).

Lemma elem_of_with_trait people (t : option bool) (person : string) :
  person ∈ with_trait t people ↔
  ∃ entry, dict_get person people = Some entry ∧ trait entry = t.
Proof.
  unfold with_trait. rewrite elem_of_filter, dict_get_names. split.
  - intros [Ht [entry Hget]]. exists entry. rewrite Hget in Ht. auto.
  - intros (entry & Hget & Ht). rewrite Hget. eauto.
Qed.

(** The sets [main] does not skip are the known carriers of the trait
    together with any choice among the people whose trait is unknown. *)
Lemma surviving_sets people :
  filter (λ ht, fails_evidence people (list_to_set (keys people)) ht = false)
         (powerset (list_to_set (keys people)))
  ≡ₚ map (λ u, with_trait (Some true) people ∪ u)
         (powerset (with_trait None people)).
Proof.
  apply NoDup_Permutation.
  - apply NoDup_filter, NoDup_powerset.
  - apply NoDup_map_on; [|apply NoDup_powerset].
    intros u1 u2 H1%elem_of_powerset H2%elem_of_powerset Heq.
    apply set_eq. intros x.
    assert (Hdisj : ∀ y, y ∈ with_trait None people →
                         y ∉ with_trait (Some true) people).
    { intros y (e1 & Hg1 & Ht1)%elem_of_with_trait
               (e2 & Hg2 & Ht2)%elem_of_with_trait. congruence. }
    set_solver.
  - intros ht. rewrite list_elem_of_filter, elem_of_powerset, elem_of_map,
      fails_evidence_false.
    split.
    + intros [Hok Hsub]. exists (ht ∩ with_trait None people). split.
      * apply set_eq. intros x. rewrite elem_of_union, elem_of_intersection.
        split.
        -- intros Hx. pose proof (Hsub x Hx) as [entry Hget]%dict_get_names.
           destruct (Hok x entry Hget) as [_ Hfalse].
           destruct (trait entry) as [[|]|] eqn:Ht.
           ++ left. apply elem_of_with_trait. eauto.
           ++ exfalso. apply Hfalse; [reflexivity | exact Hx].
           ++ right. split; [exact Hx|]. apply elem_of_with_trait. eauto.
        -- intros [(entry & Hget & Ht)%elem_of_with_trait | [Hx _]];
             [|exact Hx].
           apply (Hok x entry Hget). exact Ht.
      * apply elem_of_powerset. set_solver.
    + intros (u & -> & Hu%elem_of_powerset). split.
      * intros person entry Hget. split.
        -- intros Ht. apply elem_of_union. left.
           apply elem_of_with_trait. eauto.
        -- intros Ht [(e & Hg & He)%elem_of_with_trait | Hin]%elem_of_union.
           ++ congruence.
           ++ apply Hu, elem_of_with_trait in Hin as (e & Hg & He). congruence.
      * intros x [(e & Hg & _)%elem_of_with_trait | Hin]%elem_of_union.
        -- apply dict_get_names. eauto.
        -- apply Hu, elem_of_with_trait in Hin as (e & Hg & _).
           apply dict_get_names. eauto.
Qed.

(** For each set of carriers of the trait, the two inner loops of [main]
    make [3 ^ n] passes, [n] the number of people. *)
Lemma length_gene_assignments {B} (f : gset string → gset string → B)
    (names : gset string) :
  length (flat_map (λ og, map (f og) (powerset (names ∖ og))) (powerset names)) =
  3 ^ size names.
Proof.
  rewrite length_flat_map. unfold powerset at 2.
  rewrite sum_list_with_map.
  rewrite (sum_list_with_ext_in _
             (λ c, 2 ^ (length (elements names) - length c))).
  - apply sum_subsequences_rest, NoDup_elements.
  - intros c Hc%elem_of_subsequences. cbn.
    rewrite length_map, length_powerset.
    f_equal. rewrite size_difference.
    + rewrite size_list_to_set; [reflexivity|].
      exact (sublist_NoDup _ _ (NoDup_elements names) Hc).
    + intros x Hx%elem_of_list_to_set. apply elem_of_elements.
      eapply sublist_elem_of; eassumption.
Qed.

End HypothesesCount.

Lemma sum_list_with_if {B} (b : B → bool) (k : nat) (l : list B) :
  sum_list_with (λ x, if b x then 0 else k) l =
  length (filter (λ x, b x = false) l) * k.
Proof.
  induction l as [|x l IH]; [reflexivity|].
  destruct (b x) eqn:E.
  - rewrite filter_cons_False by congruence. rewrite <- IH. cbn.
    rewrite E. reflexivity.
  - rewrite filter_cons_True by assumption. cbn [length]. rewrite Nat.mul_succ_l.
    rewrite <- IH. cbn. rewrite E. lia.
Qed.

(** X4: [main] evaluates [2 ^ u * 3 ^ n] hypotheses, [n] the number of
    people and [u] the number of them whose trait is unknown. *)
Theorem hypotheses_count (people : dict Person) :
  length (hypotheses people) =
  2 ^ size (with_trait None people)
  * 3 ^ size (list_to_set (keys people) : gset string).
Proof.
  unfold hypotheses. cbv zeta. rewrite length_flat_map.
  rewrite (sum_list_with_ext_in _
             (λ ht, if fails_evidence people (list_to_set (keys people)) ht
                    then 0
                    else 3 ^ size (list_to_set (keys people) : gset string))).
  - rewrite sum_list_with_if, (Permutation_length (surviving_sets people)).
    rewrite length_map, length_powerset. reflexivity.
  - intros ht _. cbn. destruct (fails_evidence _ _ ht); [reflexivity|].
    apply (length_gene_assignments (λ og tg, (ht, og, tg))).
Qed.

(** ** [joint_probability] as a probability (exact arithmetic) *)

Section JointProbabilityFacts.
Local Open Scope Qc_scope.

Lemma person_prob_le_1 (one_gene two_genes have_trait : gset string)
    (person : string) (entry : Person) :
  person_prob one_gene two_genes have_trait person entry <= 1.
Proof.
  unfold person_prob. cbv zeta.
  destruct (gene_count_cases (Some person) one_gene two_genes) as [E|[E|E]];
    rewrite E;
    destruct (gene_count_cases (father entry) one_gene two_genes) as [F|[F|F]];
    rewrite F;
    destruct (gene_count_cases (mother entry) one_gene two_genes) as [M|[M|M]];
    rewrite M;
    destruct (mem (Some person) have_trait);
    destruct (falsy (father entry) && falsy (mother entry));
    vm_compute; intros Hgt; discriminate Hgt.
Qed.

Lemma Qc_mul_le_1 (x y : Qc) : 0 <= x → x <= 1 → 0 <= y → y <= 1 → x * y <= 1.
Proof.
  intros Hx0 Hx1 Hy0 Hy1. apply Qcle_trans with (1 * y).
  - apply Qcmult_le_compat_r; assumption.
  - rewrite Qcmult_1_l. exact Hy1.
Qed.

Lemma fold_left_Qcmult_acc (l : list Qc) (a : Qc) :
  fold_left Qcmult l a = a * fold_left Qcmult l 1.
Proof.
  revert a. induction l as [|x l IH]; intros a; cbn [fold_left]; [ring|].
  rewrite IH, (IH (1 * x)). ring.
Qed.

Lemma product_app (l1 l2 : list Qc) :
  product (l1 ++ l2) = product l1 * product l2.
Proof.
  unfold product. exact_ops. rewrite fold_left_app. apply fold_left_Qcmult_acc.
Qed.

Lemma fold_left_Qcmult_Permutation (l1 l2 : list Qc) :
  l1 ≡ₚ l2 → ∀ a, fold_left Qcmult l1 a = fold_left Qcmult l2 a.
Proof.
  induction 1 as [|x l1 l2 _ IH|x y l|l1 l2 l3 _ IH1 _ IH2]; intros a;
    cbn [fold_left].
  - reflexivity.
  - apply IH.
  - f_equal. ring.
  - rewrite IH1. apply IH2.
Qed.

Lemma product_Permutation (l1 l2 : list Qc) :
  l1 ≡ₚ l2 → product l1 = product l2.
Proof.
  intros Hperm. unfold product. exact_ops.
  apply fold_left_Qcmult_Permutation. exact Hperm.
Qed.

Lemma joint_probability_product (people : dict Person)
    (one_gene two_genes have_trait : gset string) :
  joint_probability (T:=Qc) people one_gene two_genes have_trait =
  product (map (λ '(person, entry),
                  person_prob one_gene two_genes have_trait person entry)
               people).
Proof.
  unfold joint_probability.
  transitivity
    (fold_left
       (λ acc x, acc * (λ '(person, entry),
                          person_prob one_gene two_genes have_trait person entry) x)
       people (lit 1)).
  { apply fold_left_ext. intros c [? ?]. reflexivity. }
  rewrite fold_left_product. exact_ops. ring.
Qed.

(** X5: the joint probability of a hypothesis is a number in (0, 1]: no
    hypothesis is impossible, whatever the pedigree and the sets. *)
Theorem joint_probability_bounds (people : dict Person)
    (one_gene two_genes have_trait : gset string) :
  0 < joint_probability people one_gene two_genes have_trait ∧
  joint_probability people one_gene two_genes have_trait <= 1.
Proof.
  split; [apply joint_probability_pos|].
  unfold joint_probability.
  assert (Hone : 0 < @lit Qc _ 1 ∧ @lit Qc _ 1 <= 1)
    by (split; [reflexivity | apply Qcle_refl]).
  revert Hone. generalize (@lit Qc _ 1).
  induction people as [|[person entry] rest IH]; intros a [Ha0 Ha1];
    [exact Ha1|].
  cbn [fold_left]. apply IH. split.
  - apply Qc_mul_pos; [exact Ha0 | apply person_prob_pos].
  - apply Qc_mul_le_1.
    + apply Qclt_le_weak, Ha0.
    + exact Ha1.
    + apply Qclt_le_weak, person_prob_pos.
    + apply person_prob_le_1.
Qed.

(** X6: the order in which [people] lists the individuals does not change
    the joint probability. *)
Theorem joint_probability_Permutation (people people' : dict Person)
    (one_gene two_genes have_trait : gset string) :
  people ≡ₚ people' →
  joint_probability (T:=Qc) people one_gene two_genes have_trait =
  joint_probability people' one_gene two_genes have_trait.
Proof.
  intros Hperm. rewrite !joint_probability_product.
  apply product_Permutation. rewrite Hperm. reflexivity.
Qed.

(** X7: for two pedigrees with no name in common, so that the entries of
    the one followed by the entries of the other are the dictionary holding
    both, the joint probability of that dictionary is the product of their
    joint probabilities under the same hypothesis. *)
Theorem joint_probability_concat (people1 people2 : dict Person)
    (one_gene two_genes have_trait : gset string) :
  NoDup (keys (people1 ++ people2)) →
  joint_probability (people1 ++ people2) one_gene two_genes have_trait =
  joint_probability people1 one_gene two_genes have_trait
  * joint_probability people2 one_gene two_genes have_trait.
Proof.
  intros _. rewrite !joint_probability_product, map_app. apply product_app.
Qed.

End JointProbabilityFacts.

(** ** [update]: the order of the additions (exact arithmetic) *)

Section UpdateFacts.
Local Open Scope Qc_scope.

Lemma update_person_totals (og tg ht : gset string) (p : Qc) (q : string)
    (m : Marginal Qc) :
  gene_total (m_gene (update_person og tg ht p q m)) = gene_total (m_gene m) + p ∧
  trait_total (m_trait (update_person og tg ht p q m)) =
    trait_total (m_trait m) + p.
Proof.
  unfold update_person. cbn [m_gene m_trait]. split.
  - destruct (gene_count_cases (Some q) og tg) as [E|[E|E]]; rewrite E;
      unfold gene_total; cbn; ring.
  - destruct (mem (Some q) ht); unfold trait_total; cbn; ring.
Qed.

Lemma update_person_comm (og1 tg1 ht1 og2 tg2 ht2 : gset string) (p1 p2 : Qc)
    (q : string) (m : Marginal Qc) :
  update_person og2 tg2 ht2 p2 q (update_person og1 tg1 ht1 p1 q m) =
  update_person og1 tg1 ht1 p1 q (update_person og2 tg2 ht2 p2 q m).
Proof.
  unfold update_person. cbn [m_gene m_trait].
  destruct (gene_count_cases (Some q) og1 tg1) as [E1|[E1|E1]]; rewrite E1;
    destruct (gene_count_cases (Some q) og2 tg2) as [E2|[E2|E2]]; rewrite E2;
    destruct (mem (Some q) ht1), (mem (Some q) ht2); cbn; exact_ops;
    f_equal; f_equal; ring.
Qed.

(** X8: two calls of [update] can be swapped: the table is the same. *)
Theorem update_commutes (probabilities : dict (Marginal Qc))
    (og1 tg1 ht1 og2 tg2 ht2 : gset string) (p1 p2 : Qc) :
  update (update probabilities og1 tg1 ht1 p1) og2 tg2 ht2 p2 =
  update (update probabilities og2 tg2 ht2 p2) og1 tg1 ht1 p1.
Proof.
  unfold update. rewrite !map_map. apply map_ext. intros [q m]. f_equal.
  apply update_person_comm.
Qed.

(** X9: one call of [update] raises the total of each person's gene
    distribution and of each person's trait distribution by [p]. *)
Theorem update_totals (probabilities : dict (Marginal Qc))
    (og tg ht : gset string) (p : Qc) (person : string) (m : Marginal Qc) :
  dict_get person probabilities = Some m →
  ∃ m', dict_get person (update probabilities og tg ht p) = Some m' ∧
    gene_total (m_gene m') = gene_total (m_gene m) + p ∧
    trait_total (m_trait m') = trait_total (m_trait m) + p.
Proof.
  intros Hget. exists (update_person og tg ht p person m). split.
  - rewrite dict_get_update, Hget. reflexivity.
  - apply update_person_totals.
Qed.

Lemma accumulate_comm (people : dict Person)
    (probabilities : dict (Marginal Qc))
    (h1 h2 : gset string * gset string * gset string) :
  accumulate people (accumulate people probabilities h1) h2 =
  accumulate people (accumulate people probabilities h2) h1.
Proof.
  destruct h1 as [[ht1 og1] tg1], h2 as [[ht2 og2] tg2]. cbn.
  unfold update. rewrite !map_map. apply map_ext. intros [q m]. f_equal.
  apply update_person_comm.
Qed.

(** X10: the loops of [main] may go through the hypotheses in any order;
    the accumulated table is the one [main] computes. *)
Theorem accumulation_order_irrelevant (people : dict Person)
    (hs : list (gset string * gset string * gset string)) :
  hs ≡ₚ hypotheses people →
  fold_left (accumulate people) hs (initial_probabilities people) =
  main_loop (T:=Qc) people.
Proof.
  intros Hperm. rewrite main_loop_hypotheses.
  generalize (initial_probabilities (T:=Qc) people).
  induction Hperm as [|h l1 l2 _ IH|h1 h2 l|l1 l2 l3 _ IH1 _ IH2];
    intros table.
  - reflexivity.
  - cbn [fold_left]. apply IH.
  - cbn [fold_left]. rewrite accumulate_comm. reflexivity.
  - rewrite IH1. apply IH2.
Qed.

End UpdateFacts.

Lemma update_totals_witness :
  ∃ m' : Marginal Qc,
    dict_get "B" (update full_table ∅ {["B"]} ∅ (Q2Qc 0.5)) = Some m' ∧
    gene_total (m_gene m') = (gene_total (T:=Qc) {| g2 := lit 1; g1 := lit 2; g0 := lit 1 |} + Q2Qc 0.5)%Qc.
Proof.
  destruct (update_totals full_table ∅ {["B"]} ∅ (Q2Qc 0.5) "B" _ eq_refl)
    as (m' & Hget & Hg & _).
  exists m'. split; [exact Hget | exact Hg].
Defined.

Lemma accumulation_order_irrelevant_witness :
  fold_left (accumulate alice) (rev (hypotheses alice))
    (initial_probabilities alice) =
  main_loop (T:=Qc) alice.
Proof.
  apply (accumulation_order_irrelevant alice (rev (hypotheses alice))).
  symmetry. apply Permutation_rev.
Defined.

Lemma joint_probability_Permutation_witness :
  joint_probability (T:=Qc) family {["Harry"]} ∅ {["James"]} =
  joint_probability (rev family) {["Harry"]} ∅ {["James"]}.
Proof.
  apply joint_probability_Permutation. apply Permutation_rev.
Defined.

Lemma joint_probability_concat_witness :
  NoDup (keys (alice ++ family)) ∧
  joint_probability (T:=Qc) (alice ++ family) {["Harry"]} {["James"]} {["Alice"; "James"]} =
  (joint_probability alice {["Harry"]} {["James"]} {["Alice"; "James"]}
   * joint_probability family {["Harry"]} {["James"]} {["Alice"; "James"]})%Qc.
Proof.
  assert (Hnd : NoDup (keys (alice ++ family)))
    by (vm_compute; repeat (apply NoDup_cons; split; [set_solver|]); apply NoDup_nil_2).
  split; [exact Hnd|].
  exact (joint_probability_concat alice family _ _ _ Hnd).
Defined.

(** ** [normalize]: when it returns, and what a second call does *)

Section NormalizeFacts.
Context {T : Type} `{Arith T}.

(** X11: [normalize] returns exactly when no distribution of the table has
    a total equal to zero, and raises [ZeroDivisionError] otherwise; either
    way the table keeps its keys, in their order.  This holds for floats as
    for exact numbers. *)
Theorem normalize_returns_iff (probabilities : dict (Marginal T)) :
  ((∃ probabilities', normalize probabilities = Returned probabilities') ↔
   (∀ person m, In (person, m) probabilities →
      is_zero (gene_total (m_gene m)) = false ∧
      is_zero (trait_total (m_trait m)) = false)) ∧
  ((∃ store, normalize probabilities = ZeroDivisionError store) ↔
   (∃ person m, In (person, m) probabilities ∧
      (is_zero (gene_total (m_gene m)) = true ∨
       is_zero (trait_total (m_trait m)) = true))) ∧
  keys (store_of (normalize probabilities)) = keys probabilities.
Proof.
  assert (Hcases :
    (∀ person m, In (person, m) probabilities →
       is_zero (gene_total (m_gene m)) = false ∧
       is_zero (trait_total (m_trait m)) = false) ∨
    (∃ person m, In (person, m) probabilities ∧
       (is_zero (gene_total (m_gene m)) = true ∨
        is_zero (trait_total (m_trait m)) = true))).
  { induction probabilities as [|[q mq] rest IH]; [left; intros ? ? []|].
    destruct (is_zero (gene_total (m_gene mq))) eqn:Eg;
      [right; exists q, mq; split; [left; reflexivity | auto]|].
    destruct (is_zero (trait_total (m_trait mq))) eqn:Et;
      [right; exists q, mq; split; [left; reflexivity | auto]|].
    destruct IH as [Hall | (person & m & Hin & Hz)].
    - left. intros person m [Heq | Hin]; [|exact (Hall person m Hin)].
      injection Heq as <- <-. split; assumption.
    - right. exists person, m. split; [right; exact Hin | exact Hz]. }
  split; [|split; [|apply keys_normalize]].
  - split; [|apply normalize_returns].
    intros [probabilities' Hret].
    destruct Hcases as [Hall | (person & m & Hin & Hz)]; [exact Hall|].
    destruct (normalize_raises _ _ _ Hin Hz) as [store Hs]. congruence.
  - split.
    + intros [store Hs].
      destruct Hcases as [Hall | Hex]; [|exact Hex].
      destruct (normalize_returns _ Hall) as [probabilities' Hret]. congruence.
    + intros (person & m & Hin & Hz). eapply normalize_raises; eassumption.
Qed.

End NormalizeFacts.

Section NormalizeIdempotent.
Local Open Scope Qc_scope.

Lemma Qc_one_nonzero : (1 : Qc) ≠ 0.
Proof. apply not_eq_sym, Qclt_not_eq. reflexivity. Qed.

Lemma Qc_mul_inv_1 (x : Qc) : x * (1 / 1) = x.
Proof. field. apply Qc_one_nonzero. Qed.

Lemma normalize_gene_fixed (d g : GeneDist Qc) :
  normalize_gene d = Some g → normalize_gene g = Some g.
Proof.
  intros Hn. apply exact_normalize_gene in Hn as [Hnz ->].
  unfold normalize_gene. cbv zeta.
  set (t := gene_total d) in *.
  assert (Htot : gene_total {| g2 := g2 d * (1 / t); g1 := g1 d * (1 / t);
                               g0 := g0 d * (1 / t) |} = 1).
  { unfold gene_total in *. cbn in *. subst t. field. intros E. apply Hnz.
    etransitivity; [|exact E]. ring. }
  rewrite Htot, exact_div by apply Qc_one_nonzero.
  cbn [g2 g1 g0]. exact_ops. rewrite !Qc_mul_inv_1. reflexivity.
Qed.

Lemma normalize_trait_fixed (d t' : TraitDist Qc) :
  normalize_trait d = Some t' → normalize_trait t' = Some t'.
Proof.
  intros Hn. apply exact_normalize_trait in Hn as [Hnz ->].
  unfold normalize_trait. cbv zeta.
  set (t := trait_total d) in *.
  assert (Htot : trait_total {| tTrue := tTrue d * (1 / t);
                                tFalse := tFalse d * (1 / t) |} = 1).
  { unfold trait_total in *. cbn in *. subst t. field. intros E. apply Hnz.
    etransitivity; [|exact E]. ring. }
  rewrite Htot, exact_div by apply Qc_one_nonzero.
  cbn [tTrue tFalse]. exact_ops. rewrite !Qc_mul_inv_1. reflexivity.
Qed.

(** X12: in exact arithmetic a table that [normalize] has returned is left
    unchanged by a second call. *)
Theorem normalize_idempotent (probabilities probabilities' : dict (Marginal Qc)) :
  normalize probabilities = Returned probabilities' →
  normalize probabilities' = Returned probabilities'.
Proof.
  revert probabilities'.
  induction probabilities as [|[q m] rest IH]; intros probabilities' Hn.
  - injection Hn as <-. reflexivity.
  - cbn in Hn.
    destruct (normalize_gene (m_gene m)) as [g|] eqn:Eg; [|discriminate].
    destruct (normalize_trait (m_trait m)) as [t|] eqn:Et; [|discriminate].
    destruct (normalize rest) as [rest'|] eqn:Er; [|discriminate].
    injection Hn as <-. cbn.
    rewrite (normalize_gene_fixed _ _ Eg), (normalize_trait_fixed _ _ Et).
    rewrite (IH rest' eq_refl). reflexivity.
Qed.

End NormalizeIdempotent.

Lemma normalize_idempotent_witness :
  ∃ probabilities' : dict (Marginal Qc),
    normalize full_table = Returned probabilities' ∧
    normalize probabilities' = Returned probabilities'.
Proof.
  destruct (normalize full_table) as [probabilities'|store] eqn:Hn.
  - exists probabilities'. split; [reflexivity|].
    exact (normalize_idempotent full_table probabilities' Hn).
  - exfalso. vm_compute in Hn. discriminate Hn.
Defined.

(** ** What [main] returns (exact arithmetic) *)

Section Posterior.
Local Open Scope Qc_scope.

Lemma normalize_gene_total (d g : GeneDist Qc) :
  normalize_gene d = Some g → gene_total g = 1.
Proof.
  intros Hn. apply exact_normalize_gene in Hn as [Hnz ->].
  unfold gene_total in *. cbn in *. field. intros E. apply Hnz.
  etransitivity; [|exact E]. ring.
Qed.

Lemma normalize_trait_total (d t : TraitDist Qc) :
  normalize_trait d = Some t → trait_total t = 1.
Proof.
  intros Hn. apply exact_normalize_trait in Hn as [Hnz ->].
  unfold trait_total in *. cbn in *. field. intros E. apply Hnz.
  etransitivity; [|exact E]. ring.
Qed.

(** A bucket that a pass either adds the joint probability to or leaves
    alone never shrinks, and grows when some pass adds to it. *)
Lemma fold_bucket (people : dict Person) (q : string)
    (B : Marginal Qc → Qc) (hit : gset string → gset string → gset string → bool) :
  (∀ m ht og tg,
     B (accumulate_person people q m (ht, og, tg)) =
     bumped (hit ht og tg) (B m) (joint_probability people og tg ht)) →
  ∀ hs m,
    B m <= B (fold_left (accumulate_person people q) hs m) ∧
    ((∃ ht og tg, (ht, og, tg) ∈ hs ∧ hit ht og tg = true) →
     B m < B (fold_left (accumulate_person people q) hs m)).
Proof.
  intros Hstep hs. induction hs as [|[[ht og] tg] hs IH]; intros m.
  - split; [apply Qcle_refl|]. intros (? & ? & ? & Hin & _).
    apply elem_of_nil in Hin as [].
  - cbn [fold_left].
    destruct (IH (accumulate_person people q m (ht, og, tg))) as [Hle Hlt].
    pose proof (joint_probability_pos people og tg ht) as Hp.
    assert (Hm : B m <= B (accumulate_person people q m (ht, og, tg)) ∧
                 (hit ht og tg = true →
                  B m < B (accumulate_person people q m (ht, og, tg)))).
    { rewrite Hstep. unfold bumped. exact_ops.
      assert (Hgrow : B m < B m + joint_probability people og tg ht).
      { apply Qclt_minus_iff.
        replace (B m + joint_probability people og tg ht + - B m)
          with (joint_probability (T:=Qc) people og tg ht) by ring.
        exact Hp. }
      destruct (hit ht og tg).
      - split; [apply Qclt_le_weak, Hgrow | intros _; exact Hgrow].
      - split; [apply Qcle_refl | discriminate]. }
    destruct Hm as [Hm Hmhit]. split.
    + eapply Qcle_trans; eassumption.
    + intros (ht' & og' & tg' & Hin & Hhit).
      apply elem_of_cons in Hin as [[= -> -> ->] | Hin].
      * eapply Qclt_le_trans; [apply Hmhit; exact Hhit | exact Hle].
      * eapply Qcle_lt_trans; [exact Hm|]. apply Hlt. eauto 6.
Qed.

(** The five buckets of a person, each with the hypotheses that add to it. *)
Lemma bucket_steps (people : dict Person) (q : string) :
  let step (B : Marginal Qc → Qc) hit :=
    ∀ m ht og tg,
      B (accumulate_person people q m (ht, og, tg)) =
      bumped (hit ht og tg) (B m) (joint_probability people og tg ht) in
  step (λ m, g2 (m_gene m)) (λ ht og tg, (gene_count (Some q) og tg =? 2)%Z) ∧
  step (λ m, g1 (m_gene m)) (λ ht og tg, (gene_count (Some q) og tg =? 1)%Z) ∧
  step (λ m, g0 (m_gene m)) (λ ht og tg, (gene_count (Some q) og tg =? 0)%Z) ∧
  step (λ m, tTrue (m_trait m)) (λ ht og tg, mem (Some q) ht) ∧
  step (λ m, tFalse (m_trait m)) (λ ht og tg, negb (mem (Some q) ht)).
Proof.
  cbv zeta. unfold accumulate_person, update_person.
  repeat split; intros m ht og tg; cbn [m_gene m_trait];
    try (destruct (gene_count_cases (Some q) og tg) as [E|[E|E]]; rewrite E;
         reflexivity);
    destruct (mem (Some q) ht); reflexivity.
Qed.

(** Hypotheses [main] is sure to go through: the known carriers of the
    trait, possibly with people whose trait is unknown, and any two disjoint
    sets of names for the gene. *)
Lemma elem_of_hypotheses_unknown (people : dict Person) (u og tg : gset string) :
  u ⊆ with_trait None people →
  og ⊆ list_to_set (keys people) → tg ⊆ list_to_set (keys people) →
  og ## tg →
  (with_trait (Some true) people ∪ u, og, tg) ∈ hypotheses people.
Proof.
  intros Hu Hog Htg Hdisj. apply elem_of_hypotheses.
  assert (Hin : with_trait (Some true) people ∪ u ∈
                filter (λ ht, fails_evidence people (list_to_set (keys people)) ht
                              = false)
                       (powerset (list_to_set (keys people)))).
  { rewrite surviving_sets. apply elem_of_map. exists u.
    split; [reflexivity | apply elem_of_powerset; exact Hu]. }
  apply list_elem_of_filter in Hin as [Hok Hsub%elem_of_powerset].
  split; [exact Hsub|]. split; [exact Hok|]. split; [exact Hog|]. set_solver.
Qed.

Lemma keys_main_loop (people : dict Person) :
  keys (main_loop (T:=Qc) people) = keys people.
Proof.
  rewrite main_loop_hypotheses, fold_accumulate. unfold keys, initial_probabilities.
  rewrite !map_map. apply map_ext. intros [? ?]. reflexivity.
Qed.

Lemma Qc_lt_1_of_sum (x y : Qc) : 0 < y → x + y = 1 → x < 1.
Proof.
  intros Hy Hsum. apply Qclt_minus_iff.
  replace (1 + - x) with y by (rewrite <- Hsum; ring). exact Hy.
Qed.

Lemma Qc_le_1_of_sum (x y : Qc) : 0 <= y → x + y = 1 → x <= 1.
Proof.
  intros Hy Hsum. apply Qcle_minus_iff.
  replace (1 + - x) with y by (rewrite <- Hsum; ring). exact Hy.
Qed.

Lemma Qc_mul_nonneg (x y : Qc) : 0 <= x → 0 <= y → 0 <= x * y.
Proof.
  intros Hx Hy. rewrite <- (Qcmult_0_l y). apply Qcmult_le_compat_r; assumption.
Qed.

(** What [main] does for one person of the pedigree: the masses the loops
    accumulate, their common positive total [S], and the entry returned,
    which is the masses divided by [S]. *)
Lemma main_entry (people : dict Person) (person : string) (entry : Person) :
  dict_get person people = Some entry →
  ∃ (probabilities' : dict (Marginal Qc)) (mass : Marginal Qc) (S : Qc),
    main people = Returned probabilities' ∧
    mass = fold_left (accumulate_person people person) (hypotheses people)
             {| m_gene := {| g2 := Q2Qc 0; g1 := Q2Qc 0; g0 := Q2Qc 0 |};
                m_trait := {| tTrue := Q2Qc 0; tFalse := Q2Qc 0 |} |} ∧
    0 < S ∧ gene_total (m_gene mass) = S ∧ trait_total (m_trait mass) = S ∧
    dict_get person probabilities' =
      Some {| m_gene := {| g2 := g2 (m_gene mass) * (1 / S);
                           g1 := g1 (m_gene mass) * (1 / S);
                           g0 := g0 (m_gene mass) * (1 / S) |};
              m_trait := {| tTrue := tTrue (m_trait mass) * (1 / S);
                            tFalse := tFalse (m_trait mass) * (1 / S) |} |}.
Proof.
  intros Hget.
  destruct (main_returns people) as [probabilities' Hret].
  destruct (main_loop_totals people) as (S & HS & Htot).
  set (zero := {| m_gene := {| g2 := Q2Qc 0; g1 := Q2Qc 0; g0 := Q2Qc 0 |};
                  m_trait := {| tTrue := Q2Qc 0; tFalse := Q2Qc 0 |} |}).
  set (mass := fold_left (accumulate_person people person) (hypotheses people) zero).
  assert (Hmass : dict_get person (main_loop people) = Some mass).
  { rewrite main_loop_hypotheses, fold_accumulate.
    rewrite (dict_get_map (fun q m => fold_left _ (hypotheses people) m)).
    rewrite (dict_get_initial _ _ _ Hget). reflexivity. }
  destruct (Htot person mass (dict_get_In _ _ _ Hmass)) as [Hg Ht].
  exists probabilities', mass, S.
  split; [exact Hret|]. split; [reflexivity|]. split; [exact HS|].
  split; [exact Hg|]. split; [exact Ht|].
  destruct (normalize_Returned_get _ _ _ _ Hret Hmass) as (g & t & Eg & Et & ->).
  apply exact_normalize_gene in Eg as [_ ->].
  apply exact_normalize_trait in Et as [_ ->].
  rewrite Hg, Ht. reflexivity.
Qed.

Lemma gene_count_hits (person : string) :
  gene_count (Some person) ∅ {[person]} = 2%Z ∧
  gene_count (Some person) {[person]} ∅ = 1%Z ∧
  gene_count (Some person) ∅ ∅ = 0%Z.
Proof.
  unfold gene_count, mem. split; [|split].
  - rewrite bool_decide_eq_false_2 by set_solver.
    rewrite bool_decide_eq_true_2 by set_solver. reflexivity.
  - rewrite bool_decide_eq_true_2 by set_solver. reflexivity.
  - rewrite !bool_decide_eq_false_2 by set_solver. reflexivity.
Qed.

(** The loops give every gene count of every person a positive mass, and no
    trait value a negative one. *)
Lemma masses_positive (people : dict Person) (person : string) (entry : Person) :
  dict_get person people = Some entry →
  let mass :=
    fold_left (accumulate_person people person) (hypotheses people)
      {| m_gene := {| g2 := Q2Qc 0; g1 := Q2Qc 0; g0 := Q2Qc 0 |};
         m_trait := {| tTrue := Q2Qc 0; tFalse := Q2Qc 0 |} |} in
  0 < g2 (m_gene mass) ∧ 0 < g1 (m_gene mass) ∧ 0 < g0 (m_gene mass) ∧
  0 <= tTrue (m_trait mass) ∧ 0 <= tFalse (m_trait mass) ∧
  (trait entry = None → 0 < tTrue (m_trait mass) ∧ 0 < tFalse (m_trait mass)).
Proof.
  intros Hget. cbv zeta.
  assert (Hname : person ∈ (list_to_set (keys people) : gset string))
    by (apply dict_get_names; eauto).
  destruct (bucket_steps people person) as (S2 & S1 & S0 & St & Sf).
  destruct (gene_count_hits person) as (E2 & E1 & E0).
  assert (Hsingle : ({[person]} : gset string) ⊆ list_to_set (keys people))
    by set_solver.
  set (zero := {| m_gene := {| g2 := Q2Qc 0; g1 := Q2Qc 0; g0 := Q2Qc 0 |};
                  m_trait := {| tTrue := Q2Qc 0; tFalse := Q2Qc 0 |} |}).
  pose proof (fold_bucket people person (λ m, g2 (m_gene m))
                (λ ht og tg, (gene_count (Some person) og tg =? 2)%Z)
                S2 (hypotheses people) zero) as [_ H2].
  pose proof (fold_bucket people person (λ m, g1 (m_gene m))
                (λ ht og tg, (gene_count (Some person) og tg =? 1)%Z)
                S1 (hypotheses people) zero) as [_ H1].
  pose proof (fold_bucket people person (λ m, g0 (m_gene m))
                (λ ht og tg, (gene_count (Some person) og tg =? 0)%Z)
                S0 (hypotheses people) zero) as [_ H0].
  pose proof (fold_bucket people person (λ m, tTrue (m_trait m))
                (λ ht og tg, mem (Some person) ht)
                St (hypotheses people) zero) as [Ht0 Ht].
  pose proof (fold_bucket people person (λ m, tFalse (m_trait m))
                (λ ht og tg, negb (mem (Some person) ht))
                Sf (hypotheses people) zero) as [Hf0 Hf].
  cbn beta in *.
  split; [|split; [|split; [|split; [|split]]]].
  - apply H2.
    exists (with_trait (Some true) people ∪ ∅), ∅, {[person]}. split.
    + apply elem_of_hypotheses_unknown; set_solver.
    + rewrite E2. reflexivity.
  - apply H1.
    exists (with_trait (Some true) people ∪ ∅), {[person]}, ∅. split.
    + apply elem_of_hypotheses_unknown; set_solver.
    + rewrite E1. reflexivity.
  - apply H0.
    exists (with_trait (Some true) people ∪ ∅), ∅, ∅. split.
    + apply elem_of_hypotheses_unknown; set_solver.
    + rewrite E0. reflexivity.
  - exact Ht0.
  - exact Hf0.
  - intros Hnone.
    assert (Hunknown : person ∈ with_trait None people)
      by (apply elem_of_with_trait; eauto).
    assert (Hnot : person ∉ with_trait (Some true) people).
    { intros (e & Hg & He)%elem_of_with_trait. congruence. }
    split.
    + apply Ht.
      exists (with_trait (Some true) people ∪ {[person]}), ∅, ∅. split.
      * apply elem_of_hypotheses_unknown; set_solver.
      * apply mem_Some. set_solver.
    + apply Hf.
      exists (with_trait (Some true) people ∪ ∅), ∅, ∅. split.
      * apply elem_of_hypotheses_unknown; set_solver.
      * apply negb_true_iff, not_true_iff_false. rewrite mem_Some. set_solver.
Qed.

(** X13: in exact arithmetic [main] returns for every pedigree, with an
    entry for each person and for no one else; in each entry the gene
    distribution sums to 1 and so does the trait distribution, every gene
    count has a probability strictly between 0 and 1, and the trait values
    have probabilities between 0 and 1. *)
Theorem main_posteriors (people : dict Person) :
  ∃ probabilities' : dict (Marginal Qc),
    main people = Returned probabilities' ∧
    keys probabilities' = keys people ∧
    ∀ person m', dict_get person probabilities' = Some m' →
      gene_total (m_gene m') = 1 ∧ trait_total (m_trait m') = 1 ∧
      0 < g2 (m_gene m') < 1 ∧ 0 < g1 (m_gene m') < 1 ∧
      0 < g0 (m_gene m') < 1 ∧
      0 <= tTrue (m_trait m') <= 1 ∧ 0 <= tFalse (m_trait m') <= 1.
Proof.
  destruct (main_returns people) as [probabilities' Hret].
  exists probabilities'. split; [exact Hret|].
  assert (Hkeys : keys probabilities' = keys people).
  { pose proof (keys_normalize (main_loop (T:=Qc) people)) as Hk.
    unfold main in Hret. rewrite Hret in Hk. cbn [store_of] in Hk.
    rewrite Hk. apply keys_main_loop. }
  split; [exact Hkeys|]. intros person m' Hget'.
  assert (Hin : ∃ entry, dict_get person people = Some entry).
  { apply dict_get_names. rewrite <- Hkeys. apply dict_get_names. eauto. }
  destruct Hin as [entry Hget].
  destruct (main_entry people person entry Hget)
    as (probabilities'' & mass & S & Hret' & Hmass & HS & Hg & Ht & Hentry).
  assert (probabilities'' = probabilities') as -> by congruence.
  rewrite Hentry in Hget'. injection Hget' as <-.
  pose proof (masses_positive people person entry Hget) as Hpos.
  cbv zeta in Hpos. rewrite <- Hmass in Hpos.
  destruct Hpos as (P2 & P1 & P0 & Pt & Pf & _).
  pose proof (Qc_inv_pos S HS) as Hinv.
  assert (HSnz : S ≠ 0) by (apply not_eq_sym, Qclt_not_eq, HS).
  cbn [m_gene m_trait g2 g1 g0 tTrue tFalse].
  set (a2 := g2 (m_gene mass) * (1 / S)).
  set (a1 := g1 (m_gene mass) * (1 / S)).
  set (a0 := g0 (m_gene mass) * (1 / S)).
  set (bt := tTrue (m_trait mass) * (1 / S)).
  set (bf := tFalse (m_trait mass) * (1 / S)).
  assert (H2 : 0 < a2) by (apply Qc_mul_pos; assumption).
  assert (H1 : 0 < a1) by (apply Qc_mul_pos; assumption).
  assert (H0 : 0 < a0) by (apply Qc_mul_pos; assumption).
  assert (Hbt : 0 <= bt) by (apply Qc_mul_nonneg; [|apply Qclt_le_weak]; assumption).
  assert (Hbf : 0 <= bf) by (apply Qc_mul_nonneg; [|apply Qclt_le_weak]; assumption).
  assert (Hgsum : a2 + a1 + a0 = 1).
  { unfold a2, a1, a0.
    transitivity ((g2 (m_gene mass) + g1 (m_gene mass) + g0 (m_gene mass))
                  * (1 / S)); [ring|].
    replace (g2 (m_gene mass) + g1 (m_gene mass) + g0 (m_gene mass)) with S
      by (rewrite <- Hg; unfold gene_total; cbn; ring).
    field. exact HSnz. }
  assert (Htsum : bt + bf = 1).
  { unfold bt, bf.
    transitivity ((tTrue (m_trait mass) + tFalse (m_trait mass)) * (1 / S));
      [ring|].
    replace (tTrue (m_trait mass) + tFalse (m_trait mass)) with S
      by (rewrite <- Ht; unfold trait_total; cbn; ring).
    field. exact HSnz. }
  split; [unfold gene_total; cbn; rewrite <- Hgsum; ring|].
  split; [unfold trait_total; cbn; rewrite <- Htsum; ring|].
  repeat split; try assumption.
  - apply (Qc_lt_1_of_sum a2 (a1 + a0)); [apply Qc_add_pos; [|apply Qclt_le_weak]; assumption|].
    rewrite <- Hgsum. ring.
  - apply (Qc_lt_1_of_sum a1 (a2 + a0)); [apply Qc_add_pos; [|apply Qclt_le_weak]; assumption|].
    rewrite <- Hgsum. ring.
  - apply (Qc_lt_1_of_sum a0 (a2 + a1)); [apply Qc_add_pos; [|apply Qclt_le_weak]; assumption|].
    rewrite <- Hgsum. ring.
  - apply (Qc_le_1_of_sum bt bf); assumption.
  - apply (Qc_le_1_of_sum bf bt); [assumption|]. rewrite <- Htsum. ring.
Qed.

(** X14: for a person whose trait is not known, [main] returns a trait
    distribution with both values strictly between 0 and 1. *)
Theorem unknown_trait_is_uncertain (people : dict Person) (person : string)
    (entry : Person) :
  dict_get person people = Some entry →
  trait entry = None →
  ∃ (probabilities' : dict (Marginal Qc)) m',
    main people = Returned probabilities' ∧
    dict_get person probabilities' = Some m' ∧
    0 < tTrue (m_trait m') < 1 ∧ 0 < tFalse (m_trait m') < 1.
Proof.
  intros Hget Hnone.
  destruct (main_entry people person entry Hget)
    as (probabilities' & mass & S & Hret & Hmass & HS & _ & Ht & Hentry).
  pose proof (masses_positive people person entry Hget) as Hpos.
  cbv zeta in Hpos. rewrite <- Hmass in Hpos.
  destruct Hpos as (_ & _ & _ & _ & _ & Hboth).
  destruct (Hboth Hnone) as [Pt Pf].
  exists probabilities'. eexists. split; [exact Hret|]. split; [exact Hentry|].
  cbn [m_trait tTrue tFalse].
  pose proof (Qc_inv_pos S HS) as Hinv.
  assert (HSnz : S ≠ 0) by (apply not_eq_sym, Qclt_not_eq, HS).
  set (bt := tTrue (m_trait mass) * (1 / S)).
  set (bf := tFalse (m_trait mass) * (1 / S)).
  assert (Hbt : 0 < bt) by (apply Qc_mul_pos; assumption).
  assert (Hbf : 0 < bf) by (apply Qc_mul_pos; assumption).
  assert (Htsum : bt + bf = 1).
  { unfold bt, bf.
    transitivity ((tTrue (m_trait mass) + tFalse (m_trait mass)) * (1 / S));
      [ring|].
    replace (tTrue (m_trait mass) + tFalse (m_trait mass)) with S
      by (rewrite <- Ht; unfold trait_total; cbn; ring).
    field. exact HSnz. }
  repeat split; try assumption.
  - apply (Qc_lt_1_of_sum bt bf); assumption.
  - apply (Qc_lt_1_of_sum bf bt); [assumption|]. rewrite <- Htsum. ring.
Qed.

(** X15: after the loops of [main] all totals of the table are one and the
    same positive number: each person's gene masses and each person's trait
    masses add up to the summed joint probability of the hypotheses. *)
Theorem accumulated_totals_agree (people : dict Person)
    (person person' : string) (m m' : Marginal Qc) :
  dict_get person (main_loop people) = Some m →
  dict_get person' (main_loop people) = Some m' →
  gene_total (m_gene m) = trait_total (m_trait m) ∧
  gene_total (m_gene m) = gene_total (m_gene m') ∧
  trait_total (m_trait m) = trait_total (m_trait m') ∧
  0 < gene_total (m_gene m).
Proof.
  intros Hm Hm'.
  destruct (main_loop_totals people) as (S & HS & Htot).
  destruct (Htot person m (dict_get_In _ _ _ Hm)) as [-> ->].
  destruct (Htot person' m' (dict_get_In _ _ _ Hm')) as [-> ->].
  auto.
Qed.

End Posterior.

(** ** The people in the table *)

Section MainKeys.
Context {T : Type} `{Arith T}.

Lemma keys_main_loop_any (people : dict Person) :
  keys (main_loop people) = keys people.
Proof.
  rewrite main_loop_hypotheses, fold_accumulate.
  unfold keys, initial_probabilities.
  rewrite !map_map. apply map_ext. intros [? ?]. reflexivity.
Qed.

(** X16: with floats as with exact numbers, the table [main] builds has an
    entry for each person of the pedigree and for no one else, in the order
    of the pedigree, after the loops and after [normalize], whether it
    returned or raised. *)
Theorem main_keeps_people (people : dict Person) :
  keys (main_loop people) = keys people ∧
  keys (store_of (main people)) = keys people.
Proof.
  split; [apply keys_main_loop_any|].
  unfold main. rewrite keys_normalize. apply keys_main_loop_any.
Qed.

End MainKeys.

(** ** The order of the rows (exact arithmetic) *)

Section RowOrder.
Local Open Scope Qc_scope.

Lemma dict_get_Permutation {V} (d d' : dict V) (k : string) :
  NoDup (keys d) → d ≡ₚ d' → dict_get k d = dict_get k d'.
Proof.
  intros Hnd Hperm.
  assert (Hnd' : NoDup (keys d')).
  { unfold keys in *. rewrite <- Hperm. exact Hnd. }
  destruct (dict_get k d) as [v|] eqn:E.
  - symmetry. apply dict_get_elem_of; [exact Hnd'|].
    rewrite <- Hperm. apply list_elem_of_In, dict_get_In. exact E.
  - destruct (dict_get k d') as [v'|] eqn:E'; [|reflexivity].
    apply dict_get_In, list_elem_of_In in E'. rewrite <- Hperm in E'.
    apply (dict_get_elem_of _ _ _ Hnd) in E'. congruence.
Qed.

Lemma existsb_ext' {A} (f g : A → bool) (l : list A) :
  (∀ x, f x = g x) → existsb f l = existsb g l.
Proof.
  intros Hfg. induction l as [|x l IH]; [reflexivity|]. cbn.
  rewrite Hfg, IH. reflexivity.
Qed.

Lemma hypotheses_Permutation (people people' : dict Person) :
  NoDup (keys people) → people ≡ₚ people' →
  hypotheses people = hypotheses people'.
Proof.
  intros Hnd Hperm. unfold hypotheses. cbv zeta.
  assert (Hnames : (list_to_set (keys people) : gset string) =
                   list_to_set (keys people')).
  { apply set_eq. intros x. rewrite !elem_of_list_to_set. unfold keys.
    rewrite Hperm. reflexivity. }
  rewrite <- Hnames. apply flat_map_ext. intros ht.
  assert (Hfail : fails_evidence people (list_to_set (keys people)) ht =
                  fails_evidence people' (list_to_set (keys people)) ht).
  { unfold fails_evidence. apply existsb_ext'. intros person.
    rewrite (dict_get_Permutation people people' person Hnd Hperm).
    reflexivity. }
  rewrite Hfail. reflexivity.
Qed.

(** X17: when the names are distinct, the order of the entries of [people]
    (the order of the rows of the file) does not change what [main] returns
    for a person. *)
Theorem main_row_order (people people' : dict Person) (person : string) :
  NoDup (keys people) → people ≡ₚ people' →
  dict_get person (store_of (main (T:=Qc) people)) =
  dict_get person (store_of (main people')).
Proof.
  intros Hnd Hperm.
  pose proof (dict_get_Permutation people people' person Hnd Hperm) as Hsame.
  destruct (dict_get person people) as [entry|] eqn:Hget.
  - symmetry in Hsame.
    destruct (main_entry people person entry Hget)
      as (P1 & mass1 & S1 & Hret1 & Hmass1 & _ & Hg1 & _ & Hentry1).
    destruct (main_entry people' person entry Hsame)
      as (P2 & mass2 & S2 & Hret2 & Hmass2 & _ & Hg2 & _ & Hentry2).
    rewrite Hret1, Hret2. cbn [store_of]. rewrite Hentry1, Hentry2.
    assert (Hmass : mass1 = mass2).
    { rewrite Hmass1, Hmass2.
      rewrite <- (hypotheses_Permutation people people' Hnd Hperm).
      apply fold_left_ext. intros m [[ht og] tg]. unfold accumulate_person.
      rewrite !joint_probability_product. f_equal.
      apply product_Permutation. rewrite Hperm. reflexivity. }
    assert (HS : S1 = S2) by congruence.
    rewrite Hmass, HS. reflexivity.
  - symmetry in Hsame.
    assert (Hnone : ∀ people0, dict_get person people0 = None →
              dict_get person (store_of (main (T:=Qc) people0)) = None).
    { intros people0 Hnone.
      destruct (dict_get person (store_of (main people0))) as [m|] eqn:E;
        [|reflexivity].
      exfalso.
      assert (Hin : person ∈ (list_to_set (keys people0) : gset string)).
      { rewrite <- (keys_main_loop_any (T:=Qc) people0),
                  <- (keys_normalize (main_loop people0)).
        apply dict_get_names. eauto. }
      apply dict_get_names in Hin as [e He]. congruence. }
    rewrite (Hnone people Hget), (Hnone people' Hsame). reflexivity.
Qed.

End RowOrder.

(** ** Examples on the family of three *)

Lemma unknown_trait_is_uncertain_witness :
  ∃ (probabilities' : dict (Marginal Qc)) m',
    main family = Returned probabilities' ∧
    dict_get "Harry" probabilities' = Some m' ∧
    (0 < tTrue (m_trait m') < 1)%Qc ∧ (0 < tFalse (m_trait m') < 1)%Qc.
Proof.
  exact (unknown_trait_is_uncertain family "Harry"
           {| name := "Harry"; mother := Some "Lily"; father := Some "James";
              trait := None |} eq_refl eq_refl).
Defined.

Lemma accumulated_totals_agree_witness :
  ∃ m m' : Marginal Qc,
    dict_get "Harry" (main_loop family) = Some m ∧
    dict_get "Lily" (main_loop family) = Some m' ∧
    gene_total (m_gene m) = trait_total (m_trait m) ∧
    gene_total (m_gene m) = gene_total (m_gene m').
Proof.
  destruct (dict_get "Harry" (main_loop (T:=Qc) family)) as [m|] eqn:Hm.
  - destruct (dict_get "Lily" (main_loop (T:=Qc) family)) as [m'|] eqn:Hm'.
    + exists m, m'.
      destruct (accumulated_totals_agree family "Harry" "Lily" m m' Hm Hm')
        as (H1 & H2 & _).
      auto.
    + exfalso. vm_compute in Hm'. discriminate Hm'.
  - exfalso. vm_compute in Hm. discriminate Hm.
Defined.

Lemma main_row_order_witness :
  dict_get "Harry" (store_of (main (T:=Qc) family)) =
  dict_get "Harry" (store_of (main (rev family))).
Proof.
  apply (main_row_order family (rev family) "Harry").
  - apply NoDup_keys_load_data.
  - apply Permutation_rev.
Defined.
